(** * Chroma-key parameter resolution and colour detection

    A shallow embedding of the decision logic of the video background
    removal service (ffmpeg.service.ts, video.service.ts and
    interfaces/chroma-key-settings.interface.ts), with the properties of
    its specification stated and proved over it.

    JavaScript data is modelled as follows.
    - A [number] that the code only stores, compares with zero or prints
      (similarity, blend, the probed duration) is an IEEE-754 binary64
      value, [Float64.t].
    - Pixel arithmetic stays inside the integers (bytes, division by 8
      under [Math.floor], clamping), so a channel is an integer or NaN,
      [Chan.t]; NaN only arises from a read past the end of the buffer.
    - An object literal built by assignment and spread is a finite map from
      property names to values.
    - A [Map] iterated in insertion order is an association list.
    - Code that spawns processes or touches the disk threads a [World]
      and may throw; what the outside answers is read from an [Env]. *)

From Stdlib Require Import ZArith List String Ascii Bool Lia.
From stdpp Require Import base gmap strings list.

Local Open Scope Z_scope.

(** ** Strings *)

Module Str.

(** [String.prototype.toUpperCase], on the ASCII letters. *)
Definition upper_ascii (c : ascii) : ascii :=
  let n := N_of_ascii c in
  if ((97 <=? n) && (n <=? 122))%N then ascii_of_N (n - 32) else c.

Fixpoint toUpperCase (s : string) : string :=
  match s with
  | EmptyString => EmptyString
  | String c s' => String (upper_ascii c) (toUpperCase s')
  end.

(** White space as [trim] and [parseFloat] skip it (ASCII part). *)
Definition is_space (c : ascii) : bool :=
  let n := N_of_ascii c in
  ((n =? 32) || ((9 <=? n) && (n <=? 13)))%N.

Fixpoint trimStart (s : string) : string :=
  match s with
  | String c s' => if is_space c then trimStart s' else s
  | EmptyString => EmptyString
  end.

(** Drops trailing white space: a character is kept when something
    that is kept follows it, or when it is not white space. *)
Fixpoint trimEnd (s : string) : string :=
  match s with
  | EmptyString => EmptyString
  | String c s' =>
      match trimEnd s' with
      | EmptyString => if is_space c then EmptyString else String c EmptyString
      | r => String c r
      end
  end.

Definition trim (s : string) : string := trimEnd (trimStart s).

(** A JavaScript string is truthy when it is not empty. *)
Definition truthy (s : string) : bool :=
  match s with EmptyString => false | _ => true end.

Definition concat (l : list string) : string :=
  fold_right String.append EmptyString l.

(** The digit characters of [Number.prototype.toString]: 0-9, then a-z. *)
Definition digit_char (d : Z) : ascii :=
  if d <? 10 then ascii_of_N (48 + Z.to_N d) else ascii_of_N (87 + Z.to_N d).

(** The digits of n >= 0 in the given base, most significant first. *)
Fixpoint digits (base : Z) (fuel : nat) (n : Z) (acc : string) : string :=
  match fuel with
  | O => acc
  | S f =>
      let acc' := String (digit_char (n mod base)) acc in
      if n <? base then acc' else digits base f (n / base) acc'
  end.

Definition ofNat (base : Z) (n : Z) : string :=
  digits base (S (Z.to_nat (Z.log2 n))) n EmptyString.

(** [n.toString(base)] for an integer n. *)
Definition ofZ (base : Z) (n : Z) : string :=
  if n <? 0 then String "-" (ofNat base (- n)) else ofNat base n.

Fixpoint replicate (n : nat) (c : ascii) : string :=
  match n with
  | O => EmptyString
  | S n' => String c (replicate n' c)
  end.

(** [s.padStart(target, c)] for a one-character filler. *)
Definition padStart (target : nat) (c : ascii) (s : string) : string :=
  String.append (replicate (target - String.length s) c) s.

End Str.

(** ** Numbers carried through the pipeline: binary64 *)

Module Float64.

(** [Fin neg m e] denotes (-1)^neg * m * 2^e. The values built by
    [round] are canonical: zero is [Fin _ 0 0], a normal number has
    2^52 <= m < 2^53 and a subnormal one has e = -1074. *)
Inductive t : Type :=
| NaN
| Inf (neg : bool)
| Fin (neg : bool) (m : N) (e : Z).

Definition eq_dec (x y : t) : {x = y} + {x <> y}.
Proof. repeat decide equality. Defined.

(** Nearest binary64 value of the rational a/b (a >= 0, b > 0), ties to
    even. *)
Definition round (neg : bool) (a b : Z) : t :=
  if a =? 0 then Fin neg 0 0 else
  let l := Z.log2 a - Z.log2 b in
  let scaled (e : Z) : Z * Z :=
    if e <? 0 then (a * 2 ^ (- e), b) else (a, b * 2 ^ e) in
  let e0 := l - 52 in
  let e1 := let '(n, d) := scaled e0 in if n / d <? 2 ^ 52 then e0 - 1 else e0 in
  let e2 := Z.max e1 (-1074) in
  let '(n, d) := scaled e2 in
  let q := n / d in
  let r := n mod d in
  let m := if (d <? 2 * r) || ((d =? 2 * r) && Z.odd q) then q + 1 else q in
  let '(m', e') := if m =? 2 ^ 53 then (2 ^ 52, e2 + 1) else (m, e2) in
  if m' =? 0 then Fin neg 0 0
  else if 971 <? e' then Inf neg
  else Fin neg (Z.to_N m') e'.

(** The number written digits * 10^exp10 in decimal. *)
Definition of_decimal (neg : bool) (digits exp10 : Z) : t :=
  if exp10 <? 0 then round neg digits (10 ^ (- exp10))
  else round neg (digits * 10 ^ exp10) 1.

Definition of_Z (z : Z) : t := of_decimal (z <? 0) (Z.abs z) 0.

(** ToBoolean on a number: NaN, +0 and -0 are falsy. *)
Definition truthy (x : t) : bool :=
  match x with
  | NaN => false
  | Inf _ => true
  | Fin _ m _ => negb (m =? 0)%N
  end.

Definition positive (x : t) : bool :=
  match x with
  | NaN => false
  | Inf neg => negb neg
  | Fin neg m _ => negb neg && (0 <? m)%N
  end.

Definition negative (x : t) : bool :=
  match x with
  | NaN => false
  | Inf neg => neg
  | Fin neg m _ => neg && (0 <? m)%N
  end.

(** *** [parseFloat]

    Skips leading white space, then reads the longest prefix that is a
    decimal literal: a sign, then [Infinity] or digits with an optional
    fraction and an optional exponent. No such prefix gives NaN. *)

Definition digit_of (c : ascii) : option Z :=
  let n := N_of_ascii c in
  if ((48 <=? n) && (n <=? 57))%N then Some (Z.of_N (n - 48)) else None.

(** Reads a run of digits: the value accumulated, how many digits were
    read, and the rest of the text. *)
Fixpoint read_digits (s : string) (acc : Z) (count : Z) : Z * Z * string :=
  match s with
  | String c s' =>
      match digit_of c with
      | Some d => read_digits s' (10 * acc + d) (count + 1)
      | None => (acc, count, s)
      end
  | EmptyString => (acc, count, s)
  end.

Definition read_sign (s : string) : bool * string :=
  match s with
  | String "-" s' => (true, s')
  | String "+" s' => (false, s')
  | _ => (false, s)
  end.

(** The exponent part is taken only when at least one digit follows
    the [e] and its optional sign. *)
Definition read_exponent (s : string) : Z :=
  match s with
  | String c s' =>
      if (Ascii.eqb c "e" || Ascii.eqb c "E")%bool then
        let '(neg, s'') := read_sign s' in
        let '(v, count, _) := read_digits s'' 0 0 in
        if count =? 0 then 0 else if neg then - v else v
      else 0
  | EmptyString => 0
  end.

Definition parseFloat (text : string) : t :=
  let '(neg, s) := read_sign (Str.trimStart text) in
  if String.prefix "Infinity" s then Inf neg else
  let '(ip, icount, s1) := read_digits s 0 0 in
  let '(mant, fcount, s2) :=
    match s1 with
    | String "." s1' => read_digits s1' ip 0
    | _ => (ip, 0, s1)
    end in
  if (icount =? 0) && (fcount =? 0) then NaN
  else of_decimal neg mant (read_exponent s2 - fcount).

End Float64.

(** ** Values, objects and the chroma-key settings *)

Inductive value : Type :=
| VUndefined
| VNumber (n : Float64.t)
| VString (s : string).

Inductive ColorType : Type := Green | Blue.

(** The object spread [{ ...a, ...b }]: the own properties of [a], then
    those of [b] over them; spreading [undefined] adds nothing. *)
Definition spread (a : gmap string value) (b : option (gmap string value))
  : gmap string value :=
  match b with
  | Some o => o ∪ a
  | None => a
  end.

(** Reading a property that is not there gives [undefined]. *)
Definition prop (o : gmap string value) (k : string) : value :=
  default VUndefined (o !! k).

(** Default settings for green screen. *)
Definition GREEN_SCREEN_SETTINGS : gmap string value :=
  <["color" := VString "00FF00"]>
    (<["similarity" := VNumber (Float64.of_decimal false 1 (-2))]>
       (<["blend" := VNumber (Float64.of_decimal false 8 (-2))]> ∅)).

(** Default settings for blue screen. *)
Definition BLUE_SCREEN_SETTINGS : gmap string value :=
  <["color" := VString "0000FF"]>
    (<["similarity" := VNumber (Float64.of_decimal false 3 (-1))]>
       (<["blend" := VNumber (Float64.of_decimal false 1 (-1))]> ∅)).

Definition preset (colorType : ColorType) : gmap string value :=
  match colorType with
  | Green => GREEN_SCREEN_SETTINGS
  | Blue => BLUE_SCREEN_SETTINGS
  end.

(** [FfmpegService.getSettings] *)
Definition getSettings (colorType : ColorType)
    (overrides : option (gmap string value)) : gmap string value :=
  let baseSettings :=
    match colorType with
    | Green => GREEN_SCREEN_SETTINGS
    | Blue => BLUE_SCREEN_SETTINGS
    end in
  spread baseSettings overrides.

(** Modelled from the spec: the declaration of the request DTO
    (dto/process-video.dto.ts) is missing; its fields are those the HTTP
    surface lists, [colorType] required and the others optional, with the
    types [processVideo] uses them at. [None] is an absent field. *)
Record ProcessVideoDto : Type := {
  videoUrl : option string;
  colorType : ColorType;
  color : option string;
  similarity : option Float64.t;
  blend : option Float64.t;
  mask_similarity : option Float64.t;
  mask_blend : option Float64.t;
  autoDetectColor : option bool
}.

(** The test [if (s)] on an optional string: absent and empty are falsy. *)
Definition truthy_string (o : option string) : option string :=
  match o with
  | Some s => if Str.truthy s then Some s else None
  | None => None
  end.

(** [processVideo], the override set of the result pass. *)
Definition resultSettingsOf (dto : ProcessVideoDto) (detectedColor : option string)
  : gmap string value :=
  let resultSettings : gmap string value := ∅ in
  let resultSettings :=
    match truthy_string detectedColor with
    | Some d => <["color" := VString d]> resultSettings
    | None =>
        match truthy_string (color dto) with
        | Some c => <["color" := VString (Str.toUpperCase c)]> resultSettings
        | None => resultSettings
        end
    end in
  let resultSettings :=
    match similarity dto with
    | Some x => <["similarity" := VNumber x]> resultSettings
    | None => resultSettings
    end in
  match blend dto with
  | Some x => <["blend" := VNumber x]> resultSettings
  | None => resultSettings
  end.

(** [processVideo], the override set of the mask pass. *)
Definition maskSettingsOf (dto : ProcessVideoDto) (detectedColor : option string)
  : gmap string value :=
  let maskSettings : gmap string value := ∅ in
  let maskSettings :=
    match truthy_string detectedColor with
    | Some d => <["color" := VString d]> maskSettings
    | None =>
        match truthy_string (color dto) with
        | Some c => <["color" := VString (Str.toUpperCase c)]> maskSettings
        | None => maskSettings
        end
    end in
  let maskSettings :=
    match mask_similarity dto with
    | Some x => <["similarity" := VNumber x]> maskSettings
    | None => maskSettings
    end in
  match mask_blend dto with
  | Some x => <["blend" := VNumber x]> maskSettings
  | None => maskSettings
  end.

(** What [processChromaKey] resolves for the two passes when it is given
    the override sets [processVideo] builds. *)
Definition resultChromaSettings (dto : ProcessVideoDto) (detectedColor : option string)
  : gmap string value :=
  getSettings (colorType dto) (Some (resultSettingsOf dto detectedColor)).

Definition maskChromaSettings (dto : ProcessVideoDto) (detectedColor : option string)
  : gmap string value :=
  getSettings (colorType dto) (Some (maskSettingsOf dto detectedColor)).

(** ** Pixel channels *)

Module Chan.

(** A channel value: an integer, or NaN (what arithmetic makes of the
    [undefined] read past the end of a buffer). *)
Inductive t : Type :=
| Num (z : Z)
| NaN.

(** [a < k] and [a > k]: false as soon as NaN (or [undefined]) is
    involved. *)
Definition lt (a : t) (k : Z) : bool :=
  match a with Num z => z <? k | NaN => false end.

Definition gt (a : t) (k : Z) : bool :=
  match a with Num z => k <? z | NaN => false end.

(** [Math.floor(a / q) * q], exact on integers. *)
Definition quantize (a : t) (q : Z) : t :=
  match a with Num z => Num (z / q * q) | NaN => NaN end.

(** [Math.max(k, a)] and [Math.min(k, a)]. *)
Definition max (k : Z) (a : t) : t :=
  match a with Num z => Num (Z.max k z) | NaN => NaN end.

Definition min (k : Z) (a : t) : t :=
  match a with Num z => Num (Z.min k z) | NaN => NaN end.

(** [a.toString(base)], also what a template literal prints for
    base 10. *)
Definition toString (base : Z) (a : t) : string :=
  match a with Num z => Str.ofZ base z | NaN => "NaN" end.

End Chan.

(** [interface RGB] *)
Record RGB : Type := { r : Chan.t; g : Chan.t; b : Chan.t }.

(** [rgbToHex] and its local [toHex]. *)
Definition toHex (n : Chan.t) : string :=
  Str.padStart 2 "0" (Chan.toString 16 (Chan.min 255 (Chan.max 0 n))).

Definition rgbToHex (rgb : RGB) : string :=
  Str.toUpperCase (String.append (toHex (r rgb)) (String.append (toHex (g rgb)) (toHex (b rgb)))).

(** ** [Map] with insertion order *)

Module JsMap.

Section Ops.
Context {V : Type}.

Fixpoint get (m : list (string * V)) (k : string) : option V :=
  match m with
  | [] => None
  | (k', v) :: m' => if String.eqb k' k then Some v else get m' k
  end.

Definition has (m : list (string * V)) (k : string) : bool :=
  match get m k with Some _ => true | None => false end.

(** [set] keeps the position of a key that is already there and
    appends a new key at the end. *)
Fixpoint set (m : list (string * V)) (k : string) (v : V) : list (string * V) :=
  match m with
  | [] => [(k, v)]
  | (k', v') :: m' =>
      if String.eqb k' k then (k', v) :: m' else (k', v') :: set m' k v
  end.

Definition values (m : list (string * V)) : list V := map snd m.
End Ops.

End JsMap.

(** [Array.prototype.sort] with a comparator: stable, so equal elements
    keep their order. *)
Section Sort.
Context {A : Type} (cmp : A -> A -> Z).

Fixpoint sort_insert (x : A) (l : list A) : list A :=
  match l with
  | [] => [x]
  | y :: l' => if cmp x y <=? 0 then x :: l else y :: sort_insert x l'
  end.

Fixpoint sort (l : list A) : list A :=
  match l with
  | [] => []
  | x :: l' => sort_insert x (sort l')
  end.
End Sort.

(** ** The per-frame dominant colour *)

(** What [sharp(...).raw().toBuffer({ resolveWithObject: true })] gives:
    the bytes and [info.channels], which sharp types as 1 | 2 | 3 | 4. *)
Inductive Channels : Type := Ch1 | Ch2 | Ch3 | Ch4.

Definition channel_count (c : Channels) : nat :=
  match c with Ch1 => 1 | Ch2 => 2 | Ch3 => 3 | Ch4 => 4 end%nat.

Record RawImage : Type := { data : list Byte.byte; channels : Channels }.

(** An entry of [colorMap]. *)
Record Bucket : Type := { rgb : RGB; count : Z }.

(** [data[i]]: the byte, or [undefined] past the end, which every use
    below turns into NaN. *)
Definition read (data : list Byte.byte) (i : nat) : Chan.t :=
  match data !! i with
  | Some x => Chan.Num (Z.of_N (Byte.to_N x))
  | None => Chan.NaN
  end.

Definition quantizeFactor : Z := 8.

(** The key [`${qR},${qG},${qB}`]. *)
Definition colorKey (qR qG qB : Chan.t) : string :=
  String.append (Chan.toString 10 qR)
    (String.append "," (String.append (Chan.toString 10 qG)
       (String.append "," (Chan.toString 10 qB)))).

(** One turn of the loop body on the pixel that starts at index [i]. *)
Definition votePixel (data : list Byte.byte) (i : nat)
    (colorMap : list (string * Bucket)) : list (string * Bucket) :=
  let r := read data i in
  let g := read data (i + 1) in
  let b := read data (i + 2) in
  if Chan.lt r 30 && Chan.lt g 30 && Chan.lt b 30 then colorMap
  else if Chan.gt r 240 && Chan.gt g 240 && Chan.gt b 240 then colorMap
  else
    let qR := Chan.quantize r quantizeFactor in
    let qG := Chan.quantize g quantizeFactor in
    let qB := Chan.quantize b quantizeFactor in
    let key := colorKey qR qG qB in
    match JsMap.get colorMap key with
    | Some bucket =>
        JsMap.set colorMap key {| rgb := rgb bucket; count := count bucket + 1 |}
    | None =>
        JsMap.set colorMap key {| rgb := {| r := qR; g := qG; b := qB |}; count := 1 |}
    end.

(** [for (let i = 0; i < data.length; i += info.channels)]; the loop
    runs at most once per byte, so [length data] turns are enough fuel. *)
Fixpoint scanPixels (fuel : nat) (data : list Byte.byte) (step : nat) (i : nat)
    (colorMap : list (string * Bucket)) : list (string * Bucket) :=
  match fuel with
  | O => colorMap
  | S fuel' =>
      if (i <? length data)%nat
      then scanPixels fuel' data step (i + step) (votePixel data i colorMap)
      else colorMap
  end.

(** [analyzeFrameColors] once the frame is decoded. *)
Definition dominantColor (img : RawImage) : option RGB :=
  let colorMap :=
    scanPixels (length (data img)) (data img) (channel_count (channels img)) 0 [] in
  let sorted := sort (fun a b => count b - count a) (JsMap.values colorMap) in
  match sorted with
  | first :: _ => Some (rgb first)
  | [] => None
  end.

(** ** The outside world *)

(** What can be thrown. *)
Inductive FsOp : Type := Unlink | Mkdir | WriteFile.

Inductive Error : Type :=
| JsError (message : string)              (* [new Error(message)] *)
| BadRequestException (message : string)
| TypeError (message : string)            (* [new URL] on a malformed url *)
| SpawnError (message : string)           (* the object of a child's 'error' event *)
| FsError (op : FsOp) (path : string)     (* a rejected [fs/promises] call *)
| LibraryError (message : string).        (* sharp or axios rejecting *)

Definition error_message (e : Error) : string :=
  match e with
  | JsError m | BadRequestException m | TypeError m | SpawnError m | LibraryError m => m
  | FsError Unlink p => "unlink " +:+ p
  | FsError Mkdir p => "mkdir " +:+ p
  | FsError WriteFile p => "open " +:+ p
  end.

Inductive Result (A : Type) : Type :=
| Ok (a : A)
| Throw (e : Error).
Arguments Ok {A} a.
Arguments Throw {A} e.

(** How a spawned child ends: a 'close' event with its exit code ([None]
    is the [null] of a child killed by a signal), or an 'error' event
    when it could not be spawned. The promise wrappers settle on that
    event; by then the output chunks have all been delivered. *)
Inductive Ending : Type :=
| Close (code : option Z)
| SpawnFailed (message : string).

Record ProcessRun : Type := {
  stdout_chunks : list string;
  stderr_chunks : list string;
  ending : Ending
}.

(** The answers of everything outside the service. The [nat] is the
    number of earlier calls to the outside, so that the same call may
    be answered differently each time. The two text functions stand for
    floating-point arithmetic and printing that no property depends on. *)
Record Env : Type := {
  ffmpegPath : string;                           (* FFMPEG_PATH ?? 'ffmpeg' *)
  outputDir : string;
  tempDir : string;
  port : option string;
  tmpdir : string;                               (* os.tmpdir() *)
  uuidv4 : nat -> string;
  spawn : nat -> string -> list string -> ProcessRun;
  sharp_raw : nat -> string -> string + RawImage; (* [inl]: sharp rejects *)
  unlink_ok : nat -> string -> bool;
  mkdir_ok : nat -> string -> bool;
  writeFile_ok : nat -> string -> bool;
  axios_get : nat -> string -> option string;    (* [Some]: axios rejects *)
  url_extname : string -> option string;         (* [None]: not a url *)
  timestampText : Float64.t -> Z -> string;      (* ((duration * p) / 100).toFixed(2) *)
  numberText : Float64.t -> string               (* `${n}` *)
}.

Inductive Event : Type :=
| Spawned (command : string) (args : list string)
| Unlinked (path : string) (ok : bool)
| SettingsLogged (mask result : gmap string value).

Record World : Type := {
  clock : nat;
  files : gset string;
  log : list Event
}.

(** A computation that reads and changes the world and returns or
    throws. *)
Definition M (A : Type) : Type := World -> Result A * World.

Definition ret {A} (a : A) : M A := fun w => (Ok a, w).

Definition throw {A} (e : Error) : M A := fun w => (Throw e, w).

Definition bind {A B} (m : M A) (k : A -> M B) : M B :=
  fun w =>
    match m w with
    | (Ok a, w') => k a w'
    | (Throw e, w') => (Throw e, w')
    end.

Notation "x <- m ;; k" := (bind m (fun x => k))
  (at level 100, m at next level, right associativity).
Notation "m ;;; k" := (bind m (fun _ => k))
  (at level 100, right associativity).

(** [try { m } catch { }] around a statement: whatever [m] throws is
    ignored. *)
Definition tryIgnore (m : M unit) : M unit :=
  fun w => let '(_, w') := m w in (Ok tt, w').

(** [try { ... } finally { fin }] once the protected block has ended
    with [res]: the block's outcome stands unless [fin] throws. *)
Definition finally {A} (res : Result A) (fin : M unit) : M A :=
  fun w =>
    match fin w with
    | (Ok _, w') => (res, w')
    | (Throw e, w') => (Throw e, w')
    end.

Definition tick (w : World) : World :=
  {| clock := S (clock w); files := files w; log := log w |}.

Definition record (ev : Event) (w : World) : World :=
  {| clock := clock w; files := files w; log := log w ++ [ev] |}.

Definition uuid (env : Env) : M string :=
  fun w => (Ok (uuidv4 env (clock w)), tick w).

(** [path.join] of a directory and a name, and [path.basename]. *)
Definition join (dir name : string) : string := dir +:+ "/" +:+ name.

Fixpoint has_slash (p : string) : bool :=
  match p with
  | EmptyString => false
  | String c p' => Ascii.eqb c "/" || has_slash p'
  end.

Fixpoint basename (p : string) : string :=
  match p with
  | EmptyString => EmptyString
  | String c p' =>
      if has_slash p' then basename p'
      else if Ascii.eqb c "/" then p' else p
  end.

(** [spawn(command, args)] up to the event that settles the caller's
    promise. A child that exits with status 0 has written the file named
    by its last argument when [writes] is set; a child that fails leaves
    no file. *)
Definition spawnProcess (env : Env) (command : string) (args : list string)
    (writes : bool) : M ProcessRun :=
  fun w =>
    let run := spawn env (clock w) command args in
    let w1 := record (Spawned command args) (tick w) in
    let w2 :=
      match ending run, writes, last args with
      | Close (Some 0), true, Some out =>
          {| clock := clock w1; files := {[out]} ∪ files w1; log := log w1 |}
      | _, _, _ => w1
      end in
    (Ok run, w2).

Definition unlink (env : Env) (path : string) : M unit :=
  fun w =>
    let ok := unlink_ok env (clock w) path && bool_decide (path ∈ files w) in
    let w1 := record (Unlinked path ok) (tick w) in
    if ok
    then (Ok tt, {| clock := clock w1; files := files w1 ∖ {[path]}; log := log w1 |})
    else (Throw (FsError Unlink path), w1).

Definition mkdir (env : Env) (path : string) : M unit :=
  fun w =>
    if mkdir_ok env (clock w) path then (Ok tt, tick w)
    else (Throw (FsError Mkdir path), tick w).

Definition writeFile (env : Env) (path : string) : M unit :=
  fun w =>
    if writeFile_ok env (clock w) path
    then (Ok tt, {| clock := S (clock w); files := {[path]} ∪ files w; log := log w |})
    else (Throw (FsError WriteFile path), tick w).

Definition axios (env : Env) (url : string) : M unit :=
  fun w =>
    match axios_get env (clock w) url with
    | None => (Ok tt, tick w)
    | Some message => (Throw (LibraryError message), tick w)
    end.

Definition sharpRaw (env : Env) (path : string) : M RawImage :=
  fun w =>
    match sharp_raw env (clock w) path with
    | inr img => (Ok img, tick w)
    | inl message => (Throw (LibraryError message), tick w)
    end.

(** ** [FfmpegService] *)

(** `${code}` for the exit code of a 'close' event. *)
Definition codeText (code : option Z) : string :=
  match code with
  | Some z => Str.ofZ 10 z
  | None => "null"
  end.

(** [runFfmpegCommand] *)
Definition runFfmpegCommand (env : Env) (args : list string) : M unit :=
  run <- spawnProcess env (ffmpegPath env) args true ;;
  let stderr := Str.concat (stderr_chunks run) in
  match ending run with
  | Close (Some 0) => ret tt
  | Close code =>
      throw (JsError ("FFmpeg exited with code " +:+ codeText code +:+ ": " +:+ stderr))
  | SpawnFailed error => throw (SpawnError error)
  end.

Definition five : Float64.t := Float64.of_Z 5.

(** [getVideoDuration] *)
Definition getVideoDuration (env : Env) (inputPath : string) : M Float64.t :=
  run <- spawnProcess env "ffprobe"
           ["-v"; "error"; "-show_entries"; "format=duration"; "-of"; "csv=p=0"; inputPath]
           false ;;
  let output := Str.concat (stdout_chunks run) in
  match ending run with
  | Close (Some 0) =>
      let parsed := Float64.parseFloat (Str.trim output) in
      let duration := if Float64.truthy parsed then parsed else five in
      ret duration
  | Close _ => ret five
  | SpawnFailed _ => ret five
  end.

(** [extractFrame] *)
Definition extractFrame (env : Env) (inputPath : string) (percentage : Z) : M string :=
  let tempDir := tmpdir env in
  id <- uuid env ;;
  let framePath := join tempDir ("frame_" +:+ id +:+ ".png") in
  duration <- getVideoDuration env inputPath ;;
  let timestamp := timestampText env duration percentage in
  runFfmpegCommand env
    ["-ss"; timestamp; "-i"; inputPath; "-frames:v"; "1"; "-y"; framePath] ;;;
  ret framePath.

(** [analyzeFrameColors]; the colour type is used for logging only. *)
Definition analyzeFrameColors (env : Env) (framePath : string) (colorType : ColorType)
  : M (option RGB) :=
  img <- sharpRaw env framePath ;;
  ret (dominantColor img).

(** The sampling loop of [findDominantChromaColor], with the two local
    variables it updates. They are returned on a throw too, because the
    [finally] block reads [framePaths]. *)
Fixpoint sampleFrames (env : Env) (inputPath : string) (colorType : ColorType)
    (percentages : list Z) (framePaths : list string)
    (colorCounts : list (string * Z)) (w : World)
  : Result (list (string * Z)) * list string * World :=
  match percentages with
  | [] => (Ok colorCounts, framePaths, w)
  | percentage :: rest =>
      match extractFrame env inputPath percentage w with
      | (Throw e, w1) => (Throw e, framePaths, w1)
      | (Ok framePath, w1) =>
          let framePaths := framePaths ++ [framePath] in
          match analyzeFrameColors env framePath colorType w1 with
          | (Throw e, w2) => (Throw e, framePaths, w2)
          | (Ok color, w2) =>
              let colorCounts :=
                match color with
                | Some c =>
                    let hex := rgbToHex c in
                    JsMap.set colorCounts hex (default 0 (JsMap.get colorCounts hex) + 1)
                | None => colorCounts
                end in
              sampleFrames env inputPath colorType rest framePaths colorCounts w2
          end
      end
  end.

(** The loop that finds the most consistent colour. *)
Fixpoint pickBest (entries : list (string * Z)) (bestColor : option string)
    (bestCount : Z) : option string :=
  match entries with
  | [] => bestColor
  | (hex, count) :: rest =>
      if bestCount <? count then pickBest rest (Some hex) count
      else pickBest rest bestColor bestCount
  end.

(** The [finally] block: each unlink in its own [try]/[catch]. *)
Fixpoint cleanupFrames (env : Env) (framePaths : list string) : M unit :=
  match framePaths with
  | [] => ret tt
  | framePath :: rest => tryIgnore (unlink env framePath) ;;; cleanupFrames env rest
  end.

(** [findDominantChromaColor] *)
Definition findDominantChromaColor (env : Env) (inputPath : string)
    (colorType : ColorType) : M (option string) :=
  fun w =>
    let '(sampled, framePaths, w1) :=
      sampleFrames env inputPath colorType [5; 25; 50] [] [] w in
    let outcome :=
      match sampled with
      | Ok colorCounts => Ok (pickBest colorCounts None 0)
      | Throw e => Throw e
      end in
    finally outcome (cleanupFrames env framePaths) w1.

Module Options.
(** [interface ProcessChromaKeyOptions]; [onProgress] is left out,
    [processVideo] never passes it. *)
Record t : Type := {
  inputPath : string;
  outputDir : string;
  colorType : ColorType;
  resultSettings : option (gmap string value);
  maskSettings : option (gmap string value);
  sessionId : option string
}.
End Options.

Record ProcessedVideoResult : Type := { maskPath : string; resultPath : string }.

(** A value inside a template literal. *)
Definition valueText (env : Env) (v : value) : string :=
  match v with
  | VUndefined => "undefined"
  | VNumber n => numberText env n
  | VString s => s
  end.

Definition chromakeyFilter (env : Env) (settings : gmap string value) : string :=
  "chromakey=0x" +:+ valueText env (prop settings "color") +:+ ":"
    +:+ valueText env (prop settings "similarity") +:+ ":"
    +:+ valueText env (prop settings "blend").

(** [processChromaKey] *)
Definition processChromaKey (env : Env) (options : Options.t)
  : M ProcessedVideoResult :=
  let resultChromaSettings :=
    getSettings (Options.colorType options) (Options.resultSettings options) in
  let maskChromaSettings :=
    getSettings (Options.colorType options) (Options.maskSettings options) in
  id <- match Options.sessionId options with
        | Some s => ret s
        | None => uuid env
        end ;;
  let maskOutput := join (Options.outputDir options) (id +:+ "_mask.webm") in
  let resultOutput := join (Options.outputDir options) (id +:+ "_result.webm") in
  mkdir env (Options.outputDir options) ;;;
  let maskChromakeyFilter := chromakeyFilter env maskChromaSettings in
  let resultChromakeyFilter := chromakeyFilter env resultChromaSettings in
  (fun w => (Ok tt, record (SettingsLogged maskChromaSettings resultChromaSettings) w)) ;;;
  runFfmpegCommand env
    ["-i"; Options.inputPath options;
     "-vf"; maskChromakeyFilter
            +:+ ",format=yuva420p,alphaextract,geq=lum='if(gt(lum(X,Y),128),255,0)',format=yuv420p";
     "-c:v"; "libvpx"; "-crf"; "30"; "-b:v"; "1M"; "-an"; "-y"; maskOutput] ;;;
  runFfmpegCommand env
    ["-i"; Options.inputPath options;
     "-vf"; "split[bg][fg];[bg]drawbox=c=black:t=fill[bg2];[fg]" +:+ resultChromakeyFilter
            +:+ "[fg2];[bg2][fg2]overlay=format=auto";
     "-c:v"; "libvpx"; "-pix_fmt"; "yuva420p"; "-auto-alt-ref"; "0"; "-crf"; "30";
     "-b:v"; "2M"; "-c:a"; "libvorbis"; "-y"; resultOutput] ;;;
  ret {| maskPath := maskOutput; resultPath := resultOutput |}.

(** ** [VideoService] *)

Record UploadedFile : Type := { path : string; originalname : string }.

Module Response.
(** [ProcessVideoResponseDto] as [processVideo] builds it. *)
Record Data : Type := { mask : string; result : string }.
Record t : Type := { success : bool; data : Data }.
End Response.

(** [downloadVideo] *)
Definition downloadVideo (env : Env) (url : string) (sessionId : string) : M string :=
  mkdir env (tempDir env) ;;;
  match url_extname env url with
  | None => throw (TypeError "Invalid URL")
  | Some e =>
      let ext := if Str.truthy e then e else ".mp4" in
      let outputPath := join (tempDir env) (sessionId +:+ "_input" +:+ ext) in
      fun w =>
        match (axios env url ;;; writeFile env outputPath ;;; ret outputPath) w with
        | (Ok p, w') => (Ok p, w')
        | (Throw error, w') =>
            (Throw (BadRequestException
                      ("Failed to download video from URL: " +:+ error_message error)), w')
        end
  end.

(** The start of the [try] block of [processVideo]: the input path, and
    [tempInputPath], which the [finally] block reads. *)
Definition resolveInput (env : Env) (dto : ProcessVideoDto)
    (uploadedFile : option UploadedFile) (sessionId : string) (w : World)
  : Result string * option string * World :=
  match uploadedFile with
  | Some f => (Ok (path f), None, w)
  | None =>
      match truthy_string (videoUrl dto) with
      | Some url =>
          match downloadVideo env url sessionId w with
          | (Ok tempInputPath, w1) => (Ok tempInputPath, Some tempInputPath, w1)
          | (Throw e, w1) => (Throw e, None, w1)
          end
      | None =>
          (Throw (BadRequestException "Either video file or videoUrl must be provided"),
           None, w)
      end
  end.

(** The colour that auto-detection contributes. *)
Definition detectColor (env : Env) (dto : ProcessVideoDto) (inputPath : string)
  : M (option string) :=
  match autoDetectColor dto with
  | Some true =>
      detected <- findDominantChromaColor env inputPath (colorType dto) ;;
      ret (truthy_string detected)
  | _ => ret None
  end.

(** The rest of the [try] block, once the input path is known. *)
Definition processInput (env : Env) (dto : ProcessVideoDto) (baseUrl : option string)
    (sessionId : string) (inputPath : string) : M Response.t :=
  detectedColor <- detectColor env dto inputPath ;;
  let resultSettings := resultSettingsOf dto detectedColor in
  let maskSettings := maskSettingsOf dto detectedColor in
  result <- processChromaKey env
              {| Options.inputPath := inputPath;
                 Options.outputDir := outputDir env;
                 Options.colorType := colorType dto;
                 Options.resultSettings := Some resultSettings;
                 Options.maskSettings := Some maskSettings;
                 Options.sessionId := Some sessionId |} ;;
  let maskFilename := basename (maskPath result) in
  let resultFilename := basename (resultPath result) in
  let port := default "3000" (port env) in
  let host := default ("http://localhost:" +:+ port) baseUrl in
  ret {| Response.success := true;
         Response.data :=
           {| Response.mask := host +:+ "/outputs/" +:+ maskFilename;
              Response.result := host +:+ "/outputs/" +:+ resultFilename |} |}.

(** The [finally] block of [processVideo]. *)
Definition cleanupInputs (env : Env) (tempInputPath : option string)
    (uploadedFile : option UploadedFile) : M unit :=
  match truthy_string tempInputPath with
  | Some p => tryIgnore (unlink env p)
  | None => ret tt
  end ;;;
  match truthy_string (path <$> uploadedFile) with
  | Some p => tryIgnore (unlink env p)
  | None => ret tt
  end.

(** [processVideo] *)
Definition processVideo (env : Env) (dto : ProcessVideoDto)
    (uploadedFile : option UploadedFile) (baseUrl : option string)
  : M Response.t :=
  sessionId <- uuid env ;;
  fun w =>
    let '(input, tempInputPath, w1) := resolveInput env dto uploadedFile sessionId w in
    let '(outcome, w2) :=
      match input with
      | Ok inputPath => processInput env dto baseUrl sessionId inputPath w1
      | Throw e => (Throw e, w1)
      end in
    finally outcome (cleanupInputs env tempInputPath uploadedFile) w2.

(** ** Vocabulary of the statements

    These definitions are not code of the service; they say what the
    properties below are about. *)

(** The value of an upper-case hexadecimal digit. *)
Definition hexDigitValue (c : ascii) : option Z :=
  let n := N_of_ascii c in
  if ((48 <=? n) && (n <=? 57))%N then Some (Z.of_N (n - 48))
  else if ((65 <=? n) && (n <=? 70))%N then Some (Z.of_N (n - 55))
  else None.

Fixpoint isUpperHex (s : string) : bool :=
  match s with
  | EmptyString => true
  | String c s' =>
      match hexDigitValue c with Some _ => isUpperHex s' | None => false end
  end.

Definition hexByte (hi lo : ascii) : option Z :=
  match hexDigitValue hi, hexDigitValue lo with
  | Some h, Some l => Some (16 * h + l)
  | _, _ => None
  end.

(** The three channel values a six-digit colour encodes. *)
Definition hexChannels (s : string) : option (Z * Z * Z) :=
  match s with
  | String r1 (String r2 (String g1 (String g2 (String b1 (String b2 EmptyString))))) =>
      match hexByte r1 r2, hexByte g1 g2, hexByte b1 b2 with
      | Some r, Some g, Some b => Some (r, g, b)
      | _, _, _ => None
      end
  | _ => None
  end.

Definition clamp255 (z : Z) : Z := Z.min 255 (Z.max 0 z).

Definition rgbOf (p : Z * Z * Z) : RGB :=
  let '(x, y, z) := p in {| r := Chan.Num x; g := Chan.Num y; b := Chan.Num z |}.

(** A pixel, a vote: three integers (red, green, blue). *)
Definition excluded (p : Z * Z * Z) : bool :=
  let '(x, y, z) := p in
  ((x <? 30) && (y <? 30) && (z <? 30)) || ((240 <? x) && (240 <? y) && (240 <? z)).

Definition quantized (p : Z * Z * Z) : Z * Z * Z :=
  let '(x, y, z) := p in (x / 8 * 8, y / 8 * 8, z / 8 * 8).

Definition byteAt (data : list Byte.byte) (i : nat) : Z :=
  match data !! i with
  | Some x => Z.of_N (Byte.to_N x)
  | None => 0
  end.

(** The k-th pixel of an image: its first three channels. *)
Definition pixelAt (img : RawImage) (k : nat) : Z * Z * Z :=
  let s := channel_count (channels img) in
  (byteAt (data img) (k * s), byteAt (data img) (k * s + 1), byteAt (data img) (k * s + 2)).

Definition pixels (img : RawImage) : list (Z * Z * Z) :=
  map (pixelAt img) (seq 0 (length (data img) / channel_count (channels img))).

(** The votes of an image: the quantized colours of its pixels that are
    not excluded, in order. *)
Definition votes (img : RawImage) : list (Z * Z * Z) :=
  map quantized (List.filter (fun p => negb (excluded p)) (pixels img)).

Definition same_color (p q : Z * Z * Z) : bool :=
  let '(x, y, z) := p in let '(x', y', z') := q in
  (x =? x') && (y =? y') && (z =? z').

Fixpoint occurrences (v : Z * Z * Z) (l : list (Z * Z * Z)) : Z :=
  match l with
  | [] => 0
  | x :: l' => (if same_color x v then 1 else 0) + occurrences v l'
  end.

(** An RGB or RGBA buffer: three or four channels, whole pixels only.
    This is what sharp emits with its default sRGB output, which is how
    [analyzeFrameColors] calls it. *)
Definition isRGBorRGBA (img : RawImage) : bool :=
  match channels img with
  | Ch3 | Ch4 => (length (data img) mod channel_count (channels img) =? 0)%nat
  | Ch1 | Ch2 => false
  end.

(** ** Auxiliary definitions of the proofs *)

(** What [toHex] prints for a channel already inside the range: two
    upper-case digits (after [toUpperCase]) that read back as the value. *)
Definition toHex_checked (z : Z) : bool :=
  match Str.toUpperCase (toHex (Chan.Num z)) with
  | String hi (String lo EmptyString) =>
      match hexByte hi lo with
      | Some v => v =? z
      | None => false
      end
  | _ => false
  end.

(** The loop body of [analyzeFrameColors] on a pixel given as integers. *)
Definition keyOf (v : Z * Z * Z) : string :=
  let '(x, y, z) := v in colorKey (Chan.Num x) (Chan.Num y) (Chan.Num z).

Definition addVote (colorMap : list (string * Bucket)) (v : Z * Z * Z)
  : list (string * Bucket) :=
  match JsMap.get colorMap (keyOf v) with
  | Some bucket =>
      JsMap.set colorMap (keyOf v) {| rgb := rgb bucket; count := count bucket + 1 |}
  | None => JsMap.set colorMap (keyOf v) {| rgb := rgbOf v; count := 1 |}
  end.

Definition voteZ (colorMap : list (string * Bucket)) (p : Z * Z * Z)
  : list (string * Bucket) :=
  if excluded p then colorMap else addVote colorMap (quantized p).

(** How many votes have a given key. *)
Fixpoint keyCount (key : string) (l : list (Z * Z * Z)) : Z :=
  match l with
  | [] => 0
  | x :: l' => (if String.eqb (keyOf x) key then 1 else 0) + keyCount key l'
  end.

Definition inByteRange (v : Z * Z * Z) : Prop :=
  let '(x, y, z) := v in 0 <= x <= 255 /\ 0 <= y <= 255 /\ 0 <= z <= 255.

Fixpoint comma_free (s : string) : bool :=
  match s with
  | EmptyString => true
  | String c s' => negb (Ascii.eqb c ",") && comma_free s'
  end.

(** The colour map after the votes [vs]: one entry per key, holding the
    number of votes with that key and the colour of one of them. *)
Definition Tallied (vs : list (Z * Z * Z)) (cm : list (string * Bucket)) : Prop :=
  NoDup (map fst cm) /\
  (forall key, JsMap.get cm key = None -> keyCount key vs = 0) /\
  (forall key bucket, JsMap.get cm key = Some bucket ->
     count bucket = keyCount key vs /\
     exists v, In v vs /\ keyOf v = key /\ rgb bucket = rgbOf v).

Definition decimal_checked (x : Z) : bool :=
  comma_free (Str.ofZ 10 x) &&
  forallb (fun n => implb (String.eqb (Str.ofZ 10 x) (Str.ofZ 10 (Z.of_nat n)))
                          (x =? Z.of_nat n))
          (seq 0 256).

(** The hex votes of the sampled frames: one per frame that yielded a
    colour, in sampling order. *)
Definition hexVotes (colors : list (option RGB)) : list string :=
  omap (fun c => rgbToHex <$> c) colors.

(** The tally [colorCounts] that the sampling loop builds from them. *)
Definition tallyOf (hexes : list string) : list (string * Z) :=
  fold_left (fun m hex => JsMap.set m hex (default 0 (JsMap.get m hex) + 1)) hexes [].

(** How many of the votes are [hex]. *)
Fixpoint agreement (hex : string) (hexes : list string) : Z :=
  match hexes with
  | [] => 0
  | h :: rest => (if String.eqb h hex then 1 else 0) + agreement hex rest
  end.

(** The distinct votes in the order in which they are first seen. *)
Definition firstSeen (hexes : list string) : list string :=
  fold_left (fun seen hex => if bool_decide (hex ∈ seen) then seen else seen ++ [hex])
            hexes [].

(** A channel value left by the quantization of a byte. *)
Definition quantizedByte (x : Z) : Prop := x mod 8 = 0 /\ 0 <= x <= 248.

Definition quantizedHex (hex : string) : Prop :=
  exists x y z,
    hexChannels hex = Some (x, y, z) /\
    quantizedByte x /\ quantizedByte y /\ quantizedByte z.

(** Every frame the decoder yields is an RGB or RGBA buffer. *)
Definition decodesRGB (env : Env) : Prop :=
  forall n path img, sharp_raw env n path = inr img -> isRGBorRGBA img = true.

(** A result that is not a failed deletion. *)
Definition notUnlinkError {A : Type} (res : Result A) : Prop :=
  forall p, res <> Throw (FsError Unlink p).

(** The frame paths that the [finally] block of [findDominantChromaColor]
    finds in [framePaths]. *)
Definition sampledFramePaths (env : Env) (inputPath : string) (ct : ColorType)
    (w : World) : list string :=
  snd (fst (sampleFrames env inputPath ct [5; 25; 50] [] [] w)).

(** The two output files of the request that starts in the world [w]. *)
Definition requestOutputs (env : Env) (w : World) : list string :=
  let sessionId := uuidv4 env (clock w) in
  [join (outputDir env) (sessionId +:+ "_mask.webm");
   join (outputDir env) (sessionId +:+ "_result.webm")].

(** The [tempInputPath] of the request that starts in the world [w]. *)
Definition requestTempInput (env : Env) (dto : ProcessVideoDto)
    (uploadedFile : option UploadedFile) (w : World) : option string :=
  snd (fst (resolveInput env dto uploadedFile (uuidv4 env (clock w)) (tick w))).

(** A computation that never throws a failed deletion. *)
Definition Benign {A : Type} (m : M A) : Prop :=
  forall w, notUnlinkError (fst (m w)).

(** The same environment with other answers to the deletions. *)
Definition with_unlink (env : Env) (answers : nat -> string -> bool) : Env :=
  {| ffmpegPath := ffmpegPath env;
     outputDir := outputDir env;
     tempDir := tempDir env;
     port := port env;
     tmpdir := tmpdir env;
     uuidv4 := uuidv4 env;
     spawn := spawn env;
     sharp_raw := sharp_raw env;
     unlink_ok := answers;
     mkdir_ok := mkdir_ok env;
     writeFile_ok := writeFile_ok env;
     axios_get := axios_get env;
     url_extname := url_extname env;
     timestampText := timestampText env;
     numberText := numberText env |}.

(** Two computations that, started at the same time on any two disks,
    end at the same time with the same outcome. *)
Definition agree {A : Type} (m1 m2 : M A) : Prop :=
  forall w1 w2, clock w1 = clock w2 ->
    fst (m1 w1) = fst (m2 w2) /\ clock (snd (m1 w1)) = clock (snd (m2 w2)).

(** The settings that [processChromaKey] resolved and logged, mask
    first. *)
Definition settingsLogged (evs : list Event)
  : list (gmap string value * gmap string value) :=
  omap (fun ev => match ev with SettingsLogged m r => Some (m, r) | _ => None end) evs.

(** The settings resolved during the request that starts in [w]. *)
Definition requestSettings (env : Env) (dto : ProcessVideoDto)
    (uploadedFile : option UploadedFile) (baseUrl : option string) (w : World)
  : list (gmap string value * gmap string value) :=
  settingsLogged
    (drop (length (log w)) (log (snd (processVideo env dto uploadedFile baseUrl w)))).

(** What colour detection contributed to that request, and the world it
    left: [None] when the request failed before or during detection. *)
Definition requestDetection (env : Env) (dto : ProcessVideoDto)
    (uploadedFile : option UploadedFile) (w : World) : option (option string * World) :=
  let '(input, _, w1) := resolveInput env dto uploadedFile (uuidv4 env (clock w)) (tick w) in
  match input with
  | Ok inputPath =>
      match detectColor env dto inputPath w1 with
      | (Ok detectedColor, w2) => Some (detectedColor, w2)
      | (Throw _, _) => None
      end
  | Throw _ => None
  end.

(** A computation that only appends to the log, and no settings. *)
Definition Quiet {A : Type} (m : M A) : Prop :=
  forall w, exists evs, log (snd (m w)) = log w ++ evs /\ settingsLogged evs = [].

(** ** Sample requests and environments *)

Definition dto_green_result_overrides : ProcessVideoDto :=
  {| videoUrl := None; colorType := Green; color := None;
     similarity := Some (Float64.of_decimal false 3 (-1));
     blend := Some (Float64.of_decimal false 1 (-1));
     mask_similarity := None; mask_blend := None; autoDetectColor := None |}.

Definition dto_green_plain : ProcessVideoDto :=
  {| videoUrl := None; colorType := Green; color := None;
     similarity := None; blend := None;
     mask_similarity := None; mask_blend := None; autoDetectColor := None |}.

Definition world0 : World := {| clock := 0; files := ∅; log := [] |}.

(** Two pixels (103, 250, 12) and a black one, three channels. *)
Definition sample_image : RawImage :=
  {| data := [Byte.x67; Byte.xfa; Byte.x0c; Byte.x67; Byte.xfa; Byte.x0c;
              Byte.x00; Byte.x00; Byte.x00];
     channels := Ch3 |}.

(** An environment in which the disk and the network never fail, every
    frame decodes to [sample_image], and children end as [run] says. *)
Definition env_with (run : nat -> string -> list string -> ProcessRun) : Env :=
  {| ffmpegPath := "ffmpeg";
     outputDir := "/srv/public/outputs";
     tempDir := "/srv/temp";
     port := None;
     tmpdir := "/tmp";
     uuidv4 := fun n => "id" +:+ Str.ofZ 10 (Z.of_nat n);
     spawn := run;
     sharp_raw := fun _ _ => inr sample_image;
     unlink_ok := fun _ _ => true;
     mkdir_ok := fun _ _ => true;
     writeFile_ok := fun _ _ => true;
     axios_get := fun _ _ => None;
     url_extname := fun _ => Some ".mov";
     timestampText := fun _ p => Str.ofZ 10 p +:+ "%";
     numberText := fun _ => "n" |}.

Definition run_ok (probe : list string) : nat -> string -> list string -> ProcessRun :=
  fun _ command _ =>
    if String.eqb command "ffprobe"
    then {| stdout_chunks := probe; stderr_chunks := []; ending := Close (Some 0) |}
    else {| stdout_chunks := []; stderr_chunks := []; ending := Close (Some 0) |}.

(** ffmpeg exits with status 1 after writing to its standard error. *)
Definition run_no_such_filter : nat -> string -> list string -> ProcessRun :=
  fun _ _ _ =>
    {| stdout_chunks := []; stderr_chunks := ["no such "; "filter"];
       ending := Close (Some 1) |}.

(** ffprobe prints a negative number and exits with status 0. *)
Definition env_negative_probe : Env := env_with (run_ok ["-1"; "
"]).

(** ffprobe prints a duration of ten seconds and every child succeeds. *)
Definition env_ten_seconds : Env := env_with (run_ok ["10.0"; "
"]).

(** ** Request validation

    The decorators of [ProcessVideoDto] (dto/process-video.dto.ts) that
    constrain the fields the settings are built from, as the global
    [ValidationPipe] applies them. [@IsUrl] on [videoUrl] is left to the
    library; [colorType] is already one of the two colour types by its
    type. *)

Module Validation.

(** Comparison of two numbers, [x <= y]; false when either is NaN. *)
Definition leb (x y : Float64.t) : bool :=
  match x, y with
  | Float64.NaN, _ | _, Float64.NaN => false
  | Float64.Inf true, _ => true
  | _, Float64.Inf false => true
  | Float64.Inf false, _ => false
  | _, Float64.Inf true => false
  | Float64.Fin n1 m1 e1, Float64.Fin n2 m2 e2 =>
      let k := Z.min e1 e2 in
      let v1 := (if n1 then -1 else 1) * Z.of_N m1 * 2 ^ (e1 - k) in
      let v2 := (if n2 then -1 else 1) * Z.of_N m2 * 2 ^ (e2 - k) in
      v1 <=? v2
  end.

(** [@IsNumber()]: a number that is neither NaN nor infinite. *)
Definition isNumber (x : Float64.t) : bool :=
  match x with
  | Float64.Fin _ _ _ => true
  | _ => false
  end.

(** [@IsOptional() @IsNumber() @Min(lo) @Max(hi)] *)
Definition optionalInRange (lo hi : Float64.t) (field : option Float64.t) : bool :=
  match field with
  | None => true
  | Some x => isNumber x && leb lo x && leb x hi
  end.

Definition isHexDigit (c : ascii) : bool :=
  let n := N_of_ascii c in
  ((48 <=? n) && (n <=? 57) || (65 <=? n) && (n <=? 70) || (97 <=? n) && (n <=? 102))%N.

Fixpoint allHexDigits (s : string) : bool :=
  match s with
  | EmptyString => true
  | String c s' => isHexDigit c && allHexDigits s'
  end.

(** [@Matches(/^[0-9A-Fa-f]{6}$/)] *)
Definition matchesHexColor (s : string) : bool :=
  (String.length s =? 6)%nat && allHexDigits s.

Definition optionalHexColor (field : option string) : bool :=
  match field with
  | None => true
  | Some s => matchesHexColor s
  end.

(** The constraints on [color], [similarity], [blend], [mask_similarity]
    and [mask_blend]. *)
Definition settingsFieldsValid (dto : ProcessVideoDto) : bool :=
  optionalHexColor (color dto)
  && optionalInRange (Float64.of_decimal false 1 (-2)) (Float64.of_Z 1) (similarity dto)
  && optionalInRange (Float64.of_Z 0) (Float64.of_Z 1) (blend dto)
  && optionalInRange (Float64.of_decimal false 1 (-2)) (Float64.of_Z 1) (mask_similarity dto)
  && optionalInRange (Float64.of_Z 0) (Float64.of_Z 1) (mask_blend dto).

End Validation.

(** ** Controller *)

Module Http.
(** What [removeBackground] reads of the request: the protocol and the
    Host header. *)
Record Request : Type := { protocol : string; host : option string }.
End Http.

(** [VideoController.removeBackground] *)
Definition removeBackground (env : Env) (dto : ProcessVideoDto)
    (file : option UploadedFile) (req : Http.Request) : M Response.t :=
  let host := default "localhost:5173" (Http.host req) in
  let baseUrl := Http.protocol req +:+ "://" +:+ host in
  processVideo env dto file (Some baseUrl).

(** ** Vocabulary of the further statements *)

(** A settings value that is a six-digit upper-case hexadecimal colour. *)
Definition isColor6 (v : value) : bool :=
  match v with
  | VString s => (String.length s =? 6)%nat && isUpperHex s
  | _ => false
  end.

(** A settings value that is a number between two bounds. *)
Definition numberBetween (lo hi : Float64.t) (v : value) : bool :=
  match v with
  | VNumber x => Validation.isNumber x && Validation.leb lo x && Validation.leb x hi
  | _ => false
  end.

(** ** Further sample data *)

Definition sample_upload : UploadedFile :=
  {| path := "/tmp/video-uploads/a.mp4"; originalname := "a.mp4" |}.

Definition world_with_upload : World :=
  {| clock := 0; files := {["/tmp/video-uploads/a.mp4"]}; log := [] |}.

(** A validated request that asks for detection and overrides both
    passes. *)
Definition dto_detect : ProcessVideoDto :=
  {| videoUrl := None; colorType := Green; color := Some "00ff7f";
     similarity := Some (Float64.of_decimal false 3 (-1));
     blend := Some (Float64.of_decimal false 15 (-2));
     mask_similarity := Some (Float64.of_decimal false 4 (-1));
     mask_blend := None;
     autoDetectColor := Some true |}.

(** The colour map [analyzeFrameColors] has built when its loop ends. *)
Definition colorMapOf (img : RawImage) : list (string * Bucket) :=
  scanPixels (length (data img)) (data img) (channel_count (channels img)) 0 [].

Definition totalCount (colorMap : list (string * Bucket)) : Z :=
  fold_right (fun entry acc => count (snd entry) + acc) 0 colorMap.

(** An RGBA buffer without its alpha bytes. *)
Fixpoint dropAlpha (data : list Byte.byte) : list Byte.byte :=
  match data with
  | red :: green :: blue :: _ :: rest => red :: green :: blue :: dropAlpha rest
  | _ => []
  end.

(** Two pixels (103, 250, 12) with different alpha bytes and a black
    pixel, four channels. *)
Definition sample_image_rgba : RawImage :=
  {| data := [Byte.x67; Byte.xfa; Byte.x0c; Byte.xff; Byte.x67; Byte.xfa; Byte.x0c; Byte.x10;
              Byte.x00; Byte.x00; Byte.x00; Byte.xff];
     channels := Ch4 |}.

(** The events a computation appends to the log when started in [w]. *)
Definition eventsOf {A : Type} (m : M A) (w : World) : list Event :=
  drop (length (log w)) (log (snd (m w))).

(** The children spawned, the paths whose deletion was attempted. *)
Definition spawnedOf (ev : Event) : option (string * list string) :=
  match ev with Spawned command args => Some (command, args) | _ => None end.

Definition unlinkedOf (ev : Event) : option string :=
  match ev with Unlinked path _ => Some path | _ => None end.

Definition loggedOf (ev : Event) : option (gmap string value * gmap string value) :=
  match ev with SettingsLogged m r => Some (m, r) | _ => None end.

(** An environment in which every child fails like [run_no_such_filter]. *)
Definition env_failing : Env := env_with run_no_such_filter.

(** An environment in which the download is refused. *)
Definition env_offline : Env :=
  {| ffmpegPath := "ffmpeg";
     outputDir := "/srv/public/outputs";
     tempDir := "/srv/temp";
     port := None;
     tmpdir := "/tmp";
     uuidv4 := fun n => "id" +:+ Str.ofZ 10 (Z.of_nat n);
     spawn := run_ok ["10.0"];
     sharp_raw := fun _ _ => inr sample_image;
     unlink_ok := fun _ _ => true;
     mkdir_ok := fun _ _ => true;
     writeFile_ok := fun _ _ => true;
     axios_get := fun _ _ => Some "connect ECONNREFUSED";
     url_extname := fun _ => Some "";
     timestampText := fun _ p => Str.ofZ 10 p +:+ "%";
     numberText := fun _ => "n" |}.

Definition dto_url : ProcessVideoDto :=
  {| videoUrl := Some "https://example.com/video"; colorType := Blue; color := None;
     similarity := None; blend := None; mask_similarity := None; mask_blend := None;
     autoDetectColor := None |}.

(** A computation that appends to the log at most [n] events of the
    kind [select] picks. *)
Definition Emits {A X : Type} (select : Event -> option X) (n : nat) (m : M A) : Prop :=
  forall w, exists evs,
    log (snd (m w)) = log w ++ evs /\ (length (omap select evs) <= n)%nat.

Definition sample_options : Options.t :=
  {| Options.inputPath := "in.mp4";
     Options.outputDir := "/out";
     Options.colorType := Green;
     Options.resultSettings := None;
     Options.maskSettings := None;
     Options.sessionId := Some "s1" |}.

(** An event that is no deletion, or the deletion of a path in [Q]. *)
Definition deletesOnly (Q : string -> Prop) (ev : Event) : Prop :=
  match ev with
  | Unlinked p _ => Q p
  | _ => True
  end.

(** A computation that appends to the log only events in [P]. *)
Definition Logs {A : Type} (P : Event -> Prop) (m : M A) : Prop :=
  forall w, exists evs, log (snd (m w)) = log w ++ evs /\ Forall P evs.

(** The path [extractFrame] gives the frame it extracts under the uuid [id]. *)
Definition framePathOf (env : Env) (id : string) : string :=
  join (tmpdir env) ("frame_" +:+ id +:+ ".png").

Definition request_http : Http.Request :=
  {| Http.protocol := "https"; Http.host := Some "api.example.com" |}.

(** * Properties *)

(** ** [rgbToHex] *)

Lemma toUpperCase_app (s1 s2 : string) :
  Str.toUpperCase (s1 +:+ s2) = Str.toUpperCase s1 +:+ Str.toUpperCase s2.
Proof. induction s1 as [|c s1 IH]; simpl; [reflexivity | rewrite IH; reflexivity]. Qed.

(** A property of every integer from 0 to 255, checked by running
    through them. *)
Lemma forall_byte_values (P : Z -> bool) :
  forallb P (map Z.of_nat (seq 0 256)) = true ->
  forall z, 0 <= z <= 255 -> P z = true.
Proof.
  intros H z Hz. rewrite forallb_forall in H. apply H.
  apply in_map_iff. exists (Z.to_nat z). split; [lia|].
  apply in_seq. lia.
Qed.

Lemma toHex_clamps (z : Z) : toHex (Chan.Num z) = toHex (Chan.Num (clamp255 z)).
Proof.
  unfold toHex, clamp255. simpl.
  replace (Z.min 255 (Z.max 0 (Z.min 255 (Z.max 0 z)))) with (Z.min 255 (Z.max 0 z)) by lia.
  reflexivity.
Qed.

Lemma toHex_two_digits (z : Z) :
  exists hi lo,
    Str.toUpperCase (toHex (Chan.Num z)) = String hi (String lo EmptyString) /\
    hexByte hi lo = Some (clamp255 z).
Proof.
  rewrite toHex_clamps.
  assert (Hc : 0 <= clamp255 z <= 255) by (unfold clamp255; lia).
  pose proof (forall_byte_values toHex_checked ltac:(vm_compute; reflexivity) _ Hc) as H.
  unfold toHex_checked in H.
  destruct (Str.toUpperCase (toHex (Chan.Num (clamp255 z)))) as [|hi [|lo [|]]];
    try discriminate.
  destruct (hexByte hi lo) as [v|] eqn:Hv; [|discriminate].
  apply Z.eqb_eq in H. subst v.
  exists hi, lo. split; [reflexivity | exact Hv].
Qed.

Lemma rgbToHex_encodes (x y z : Z) :
  let hex := rgbToHex {| r := Chan.Num x; g := Chan.Num y; b := Chan.Num z |} in
  String.length hex = 6%nat /\
  isUpperHex hex = true /\
  hexChannels hex = Some (clamp255 x, clamp255 y, clamp255 z).
Proof.
  unfold rgbToHex. cbn [r g b].
  rewrite !toUpperCase_app.
  destruct (toHex_two_digits x) as (x1 & x2 & -> & Hx).
  destruct (toHex_two_digits y) as (y1 & y2 & -> & Hy).
  destruct (toHex_two_digits z) as (z1 & z2 & -> & Hz).
  change (String x1 (String x2 "") +:+ String y1 (String y2 "") +:+ String z1 (String z2 ""))
    with (String x1 (String x2 (String y1 (String y2 (String z1 (String z2 "")))))).
  unfold hexChannels. rewrite Hx, Hy, Hz.
  split; [reflexivity|]. split; [|reflexivity].
  unfold hexByte in Hx, Hy, Hz. cbn [isUpperHex].
  destruct (hexDigitValue x1), (hexDigitValue x2), (hexDigitValue y1),
    (hexDigitValue y2), (hexDigitValue z1), (hexDigitValue z2);
    try discriminate; reflexivity.
Qed.

(** C9. [rgbToHex] is defined on every integer triple; its result has
    exactly six characters, all upper-case hexadecimal digits, and they
    encode the three channels clamped to 0..255. The two examples of
    the specification evaluate as stated. *)
Theorem rgbToHex_six_upper_hex_digits (x y z : Z) :
  let hex := rgbToHex {| r := Chan.Num x; g := Chan.Num y; b := Chan.Num z |} in
  (String.length hex = 6%nat /\
   isUpperHex hex = true /\
   hexChannels hex
   = Some (Z.min 255 (Z.max 0 x), Z.min 255 (Z.max 0 y), Z.min 255 (Z.max 0 z))) /\
  rgbToHex {| r := Chan.Num 0; g := Chan.Num 255; b := Chan.Num 0 |} = "00FF00" /\
  rgbToHex {| r := Chan.Num 300; g := Chan.Num (-5); b := Chan.Num 128 |} = "FF0080".
Proof.
  split; [apply rgbToHex_encodes | split; reflexivity].
Qed.

(** ** The process runner and the duration probe *)

Lemma spawnProcess_effects (env : Env) (command : string) (args : list string)
    (writes : bool) (w : World) :
  let run := spawn env (clock w) command args in
  let out := spawnProcess env command args writes w in
  fst out = Ok run /\
  log (snd out) = log w ++ [Spawned command args] /\
  forall p, p ∈ files (snd out) ->
    p ∈ files w \/ (writes = true /\ ending run = Close (Some 0) /\ last args = Some p).
Proof.
  cbv zeta. unfold spawnProcess.
  split; [reflexivity|].
  destruct (ending (spawn env (clock w) command args)) as [[[|c|c]|]|m], writes,
    (last args) as [out|]; simpl; (split; [reflexivity|]); intros p Hp; try tauto.
  apply elem_of_union in Hp as [Hp|Hp]; [|tauto].
  apply elem_of_singleton in Hp as ->. tauto.
Qed.

Lemma runFfmpegCommand_effects (env : Env) (args : list string) (w : World) :
  let out := runFfmpegCommand env args w in
  log (snd out) = log w ++ [Spawned (ffmpegPath env) args] /\
  match fst out with
  | Ok _ => forall p, p ∈ files (snd out) -> p ∈ files w \/ last args = Some p
  | Throw _ => forall p, p ∈ files (snd out) -> p ∈ files w
  end.
Proof.
  cbv zeta. unfold runFfmpegCommand, bind.
  destruct (spawnProcess_effects env (ffmpegPath env) args true w) as (Hr & Hlog & Hfiles).
  destruct (spawnProcess env (ffmpegPath env) args true w) as [res w1].
  simpl in Hr, Hlog, Hfiles. subst res.
  destruct (ending (spawn env (clock w) (ffmpegPath env) args)) as [[[|c|c]|]|m] eqn:E;
    simpl; (split; [exact Hlog|]); intros p Hp;
    destruct (Hfiles p Hp) as [H|(_ & H & Hl)]; try tauto; discriminate H.
Qed.


Lemma truthy_not_negative_positive (x : Float64.t) :
  Float64.truthy x = true -> Float64.negative x = false -> Float64.positive x = true.
Proof.
  destruct x as [|neg|neg m e]; simpl; try discriminate.
  - intros _ ->. reflexivity.
  - destruct neg, m; simpl; intros Hm Hn; (discriminate || reflexivity).
Qed.

(** C7, as stated, fails: a probe that prints a negative number makes
    [getVideoDuration] return that negative number. *)
Lemma getVideoDuration_negative_output :
  ~ (exists d,
       fst (getVideoDuration env_negative_probe "in.mp4" world0) = Ok d /\
       Float64.positive d = true).
Proof.
  intros (d & Hd & Hp). vm_compute in Hd. injection Hd as <-. discriminate Hp.
Qed.

(** C7, amended. [getVideoDuration] never throws and never returns NaN
    or zero. It returns the fallback 5 when the probe cannot be spawned,
    closes with a status other than 0, or prints something whose
    [parseFloat] is NaN or zero; otherwise it returns the parsed number.
    The duration is positive unless the probe printed a negative number. *)
Theorem getVideoDuration_total_with_fallback (env : Env) (inputPath : string) (w : World) :
  let run :=
    spawn env (clock w) "ffprobe"
      ["-v"; "error"; "-show_entries"; "format=duration"; "-of"; "csv=p=0"; inputPath] in
  let parsed := Float64.parseFloat (Str.trim (Str.concat (stdout_chunks run))) in
  exists d,
    fst (getVideoDuration env inputPath w) = Ok d /\
    Float64.truthy d = true /\
    d = (match ending run with
         | Close (Some 0) => if Float64.truthy parsed then parsed else five
         | _ => five
         end) /\
    (Float64.negative parsed = false -> Float64.positive d = true) /\
    Float64.positive five = true.
Proof.
  cbv zeta. unfold getVideoDuration, bind, spawnProcess. simpl.
  set (run := spawn env (clock w) "ffprobe" _).
  set (parsed := Float64.parseFloat _).
  destruct (ending run) as [[[|c|c]|]|m]; simpl.
  1: destruct (Float64.truthy parsed) eqn:Ht.
  all: eexists; split; [reflexivity|]; split; [first [exact Ht | reflexivity]|];
    split; [reflexivity|]; split; [|reflexivity]; intros Hn.
  1: apply truthy_not_negative_positive; assumption.
  all: reflexivity.
Qed.

(** ** Ordered maps and sorting *)

Section JsMapFacts.
Context {V : Type}.
Implicit Types (m : list (string * V)) (k : string) (v : V).

Lemma get_set_eq m k v : JsMap.get (JsMap.set m k v) k = Some v.
Proof.
  induction m as [|[k' v'] m IH]; simpl.
  - rewrite String.eqb_refl. reflexivity.
  - destruct (String.eqb k' k) eqn:E; simpl; rewrite E; [reflexivity | exact IH].
Qed.

Lemma get_set_ne m k k' v : k <> k' -> JsMap.get (JsMap.set m k v) k' = JsMap.get m k'.
Proof.
  intros Hne. induction m as [|[k0 v0] m IH]; simpl.
  - destruct (String.eqb_spec k k'); [contradiction | reflexivity].
  - destruct (String.eqb_spec k0 k) as [->|Hk]; simpl.
    + destruct (String.eqb_spec k k'); [contradiction | reflexivity].
    + rewrite IH. reflexivity.
Qed.

Lemma get_In m k v : JsMap.get m k = Some v -> In (k, v) m.
Proof.
  induction m as [|[k0 v0] m IH]; simpl; [discriminate|].
  destruct (String.eqb_spec k0 k) as [->|Hk].
  - intros [= ->]. left. reflexivity.
  - intros H. right. apply IH, H.
Qed.

Lemma get_None_keys m k : JsMap.get m k = None -> ~ In k (map fst m).
Proof.
  induction m as [|[k0 v0] m IH]; simpl; [tauto|].
  destruct (String.eqb_spec k0 k) as [->|Hk]; [discriminate|].
  intros H [Heq|Hin]; [contradiction | exact (IH H Hin)].
Qed.

Lemma In_get m k v : NoDup (map fst m) -> In (k, v) m -> JsMap.get m k = Some v.
Proof.
  induction m as [|[k0 v0] m IH]; simpl; [tauto|].
  intros Hnd [Heq|Hin].
  - injection Heq as -> ->. rewrite String.eqb_refl. reflexivity.
  - apply NoDup_cons in Hnd as [Hnotin Hnd].
    destruct (String.eqb_spec k0 k) as [->|Hk].
    + exfalso. apply Hnotin. apply list_elem_of_In, in_map_iff.
      exists (k, v). split; [reflexivity | exact Hin].
    + apply IH; assumption.
Qed.

Lemma keys_set m k v :
  map fst (JsMap.set m k v)
  = match JsMap.get m k with Some _ => map fst m | None => map fst m ++ [k] end.
Proof.
  induction m as [|[k0 v0] m IH]; simpl; [reflexivity|].
  destruct (String.eqb_spec k0 k) as [->|Hk]; simpl; [reflexivity|].
  rewrite IH. destruct (JsMap.get m k); reflexivity.
Qed.

Lemma NoDup_keys_set m k v : NoDup (map fst m) -> NoDup (map fst (JsMap.set m k v)).
Proof.
  intros Hnd. rewrite keys_set. destruct (JsMap.get m k) eqn:E; [exact Hnd|].
  apply NoDup_app. split; [exact Hnd|]. split.
  - intros x Hx Hin. apply list_elem_of_In in Hx, Hin. destruct Hin as [<-|[]].
    exact (get_None_keys _ _ E Hx).
  - apply NoDup_singleton.
Qed.
End JsMapFacts.

Section SortFacts.
Context {A : Type} (weight : A -> Z).

(** The comparator of [analyzeFrameColors]: heavier first. *)
Let cmp (a b : A) : Z := weight b - weight a.

Lemma sort_insert_head (x : A) (l : list A) :
  exists h t, sort_insert cmp x l = h :: t /\
    (h = x \/ exists t', l = h :: t') /\
    weight x <= weight h /\
    (forall h' t', l = h' :: t' -> weight h' <= weight h).
Proof.
  destruct l as [|y l]; simpl.
  - exists x, []. repeat split; [left; reflexivity | lia | discriminate].
  - unfold cmp at 1. destruct (Z.leb_spec (weight y - weight x) 0).
    + exists x, (y :: l). repeat split; [left; reflexivity | lia |].
      intros h' t' [= <- _]. lia.
    + exists y, (sort_insert cmp x l). repeat split; [right; eauto | lia |].
      intros h' t' [= <- _]. lia.
Qed.

(** The first element after sorting is one of the heaviest. *)
Lemma sort_head (l : list A) :
  match sort cmp l with
  | [] => l = []
  | h :: _ => In h l /\ forall y, In y l -> weight y <= weight h
  end.
Proof.
  induction l as [|x l IH]; simpl; [reflexivity|].
  destruct (sort_insert_head x (sort cmp l)) as (h & t & -> & Hh & Hx & Hmax).
  destruct (sort cmp l) as [|h0 t0].
  - subst l. destruct Hh as [->|(t' & Ht')]; [|discriminate].
    split; [left; reflexivity|]. intros y [->|[]]. lia.
  - destruct IH as [Hin Hall]. specialize (Hmax h0 t0 eq_refl).
    split.
    + destruct Hh as [->|(t' & [= <- _])]; [left; reflexivity | right; exact Hin].
    + intros y [<-|Hy]; [exact Hx|]. specialize (Hall y Hy). lia.
Qed.
End SortFacts.

(** ** The per-frame detector *)

Lemma read_byteAt (data : list Byte.byte) (i : nat) :
  (i < length data)%nat -> read data i = Chan.Num (byteAt data i).
Proof.
  intros Hi. unfold read, byteAt.
  destruct (lookup_lt_is_Some_2 data i Hi) as [x ->]. reflexivity.
Qed.

Lemma byteAt_range (data : list Byte.byte) (i : nat) : 0 <= byteAt data i <= 255.
Proof.
  unfold byteAt. destruct (data !! i) as [x|]; [|lia].
  pose proof (Byte.to_N_bounded x). lia.
Qed.

Lemma rgba_length (img : RawImage) :
  isRGBorRGBA img = true ->
  let s := channel_count (channels img) in
  (3 <= s)%nat /\
  length (data img) = (length (data img) / s * s)%nat.
Proof.
  unfold isRGBorRGBA. intros H.
  destruct (channels img); try discriminate; cbn [channel_count] in *;
    apply Nat.eqb_eq in H; (split; [lia|]).
  - pose proof (Nat.div_mod_eq (length (data img)) 3). lia.
  - pose proof (Nat.div_mod_eq (length (data img)) 4). lia.
Qed.

Lemma votePixel_voteZ (img : RawImage) (k : nat) (cm : list (string * Bucket)) :
  isRGBorRGBA img = true ->
  (k < length (data img) / channel_count (channels img))%nat ->
  votePixel (data img) (k * channel_count (channels img)) cm = voteZ cm (pixelAt img k).
Proof.
  intros Hwf Hk. destruct (rgba_length img Hwf) as [Hs Hlen].
  set (s := channel_count (channels img)) in *.
  set (n := (length (data img) / s)%nat) in *.
  assert (Hend : (k * s + s <= length (data img))%nat) by (rewrite Hlen; nia).
  unfold votePixel, voteZ, pixelAt. fold s.
  rewrite !read_byteAt by lia.
  unfold excluded, addVote, quantized, keyOf, rgbOf, quantizeFactor. simpl.
  destruct (_ && _ && _); [reflexivity|].
  rewrite orb_false_l. destruct (_ && _ && _); reflexivity.
Qed.

Lemma scanPixels_fold (data : list Byte.byte) (s n : nat) :
  (0 < s)%nat -> length data = (n * s)%nat ->
  forall fuel k cm,
    (k <= n)%nat -> (n - k <= fuel)%nat ->
    scanPixels fuel data s (k * s) cm
    = fold_left (fun cm j => votePixel data (j * s) cm) (seq k (n - k)) cm.
Proof.
  intros Hs Hlen fuel. induction fuel as [|fuel IH]; intros k cm Hk Hfuel.
  - replace (n - k)%nat with 0%nat by lia. reflexivity.
  - simpl. destruct (Nat.ltb_spec (k * s) (length data)) as [Hlt|Hge].
    + assert (k < n)%nat by nia.
      replace (n - k)%nat with (S (n - S k)) by lia. simpl.
      replace (k * s + s)%nat with (S k * s)%nat by lia.
      apply IH; lia.
    + assert (k = n) by nia. subst k.
      replace (n - n)%nat with 0%nat by lia. reflexivity.
Qed.

Lemma fold_left_over_map {A B C : Type} (f : A -> B -> A) (g : C -> B) (l : list C) (a : A) :
  fold_left f (map g l) a = fold_left (fun a x => f a (g x)) l a.
Proof. revert a. induction l as [|x l IH]; intros a; simpl; [reflexivity | apply IH]. Qed.

Lemma fold_votePixel_pixels (img : RawImage) (cm : list (string * Bucket)) :
  isRGBorRGBA img = true ->
  scanPixels (length (data img)) (data img) (channel_count (channels img)) 0 cm
  = fold_left voteZ (pixels img) cm.
Proof.
  intros Hwf. destruct (rgba_length img Hwf) as [Hs Hlen].
  set (s := channel_count (channels img)) in *.
  set (n := (length (data img) / s)%nat) in *.
  change 0%nat with (0 * s)%nat at 1.
  rewrite (scanPixels_fold (data img) s n) by (try lia; rewrite Hlen at 1; nia).
  unfold pixels. fold s n. rewrite Nat.sub_0_r.
  rewrite fold_left_over_map.
  assert (Hall : forall j, In j (seq 0 n) -> (j < n)%nat) by (intros j Hj; apply in_seq in Hj; lia).
  revert cm Hall. generalize (seq 0 n) as js.
  induction js as [|j js IH]; intros cm Hall; simpl; [reflexivity|].
  rewrite votePixel_voteZ by (try assumption; apply Hall; left; reflexivity).
  apply IH. intros j' Hj'. apply Hall. right. exact Hj'.
Qed.

Lemma fold_voteZ_votes (ps : list (Z * Z * Z)) (cm : list (string * Bucket)) :
  fold_left voteZ ps cm
  = fold_left addVote (map quantized (List.filter (fun p => negb (excluded p)) ps)) cm.
Proof.
  revert cm. induction ps as [|p ps IH]; intros cm; simpl; [reflexivity|].
  unfold voteZ at 2. destruct (excluded p); simpl; apply IH.
Qed.

Lemma keyCount_app (key : string) (l1 l2 : list (Z * Z * Z)) :
  keyCount key (l1 ++ l2) = keyCount key l1 + keyCount key l2.
Proof. induction l1 as [|x l1 IH]; simpl; [reflexivity | rewrite IH; lia]. Qed.

Lemma keyCount_nonneg (key : string) (l : list (Z * Z * Z)) : 0 <= keyCount key l.
Proof. induction l as [|x l IH]; simpl; [lia | destruct (String.eqb _ _); lia]. Qed.

Lemma keyCount_In (key : string) (l : list (Z * Z * Z)) (v : Z * Z * Z) :
  In v l -> keyOf v = key -> 0 < keyCount key l.
Proof.
  intros Hin <-. induction l as [|x l IH]; simpl; [destruct Hin|].
  pose proof (keyCount_nonneg (keyOf v) l).
  destruct Hin as [->|Hin].
  - rewrite String.eqb_refl. lia.
  - specialize (IH Hin). destruct (String.eqb _ _); lia.
Qed.

Lemma tallied_nil : Tallied [] [].
Proof.
  split; [constructor|]. split; [reflexivity|]. intros key bucket H. discriminate H.
Qed.

Lemma tallied_step (vs : list (Z * Z * Z)) (cm : list (string * Bucket)) (x : Z * Z * Z) :
  Tallied vs cm -> Tallied (vs ++ [x]) (addVote cm x).
Proof.
  intros (Hnd & Hnone & Hsome).
  assert (Hnd' : NoDup (map fst (addVote cm x))).
  { unfold addVote. destruct (JsMap.get cm (keyOf x)); apply NoDup_keys_set, Hnd. }
  split; [exact Hnd'|].
  assert (Hget : forall key,
             JsMap.get (addVote cm x) key
             = if String.eqb (keyOf x) key
               then Some match JsMap.get cm (keyOf x) with
                         | Some bucket => {| rgb := rgb bucket; count := count bucket + 1 |}
                         | None => {| rgb := rgbOf x; count := 1 |}
                         end
               else JsMap.get cm key).
  { intros key. unfold addVote.
    destruct (String.eqb_spec (keyOf x) key) as [<-|Hne].
    - destruct (JsMap.get cm (keyOf x)); apply get_set_eq.
    - destruct (JsMap.get cm (keyOf x)); apply get_set_ne, Hne. }
  split.
  - intros key H. rewrite Hget in H. rewrite keyCount_app. simpl.
    destruct (String.eqb (keyOf x) key); [discriminate|].
    rewrite (Hnone key H). reflexivity.
  - intros key bucket H. rewrite Hget in H. rewrite keyCount_app. simpl.
    destruct (String.eqb_spec (keyOf x) key) as [<-|Hne].
    + injection H as <-. destruct (JsMap.get cm (keyOf x)) as [old|] eqn:E; simpl.
      * destruct (Hsome _ _ E) as (Hc & v & Hv & Hk & Hrgb).
        split; [lia|]. exists v. split; [apply in_or_app; left; exact Hv | tauto].
      * rewrite (Hnone _ E). split; [reflexivity|].
        exists x. split; [apply in_or_app; right; left; reflexivity | tauto].
    + destruct (Hsome _ _ H) as (Hc & v & Hv & Hk & Hrgb).
      split; [lia|]. exists v. split; [apply in_or_app; left; exact Hv | tauto].
Qed.

Lemma tallied_fold (vs vs0 : list (Z * Z * Z)) (cm : list (string * Bucket)) :
  Tallied vs0 cm -> Tallied (vs0 ++ vs) (fold_left addVote vs cm).
Proof.
  revert vs0 cm. induction vs as [|x vs IH]; intros vs0 cm H; simpl.
  - rewrite app_nil_r. exact H.
  - replace (vs0 ++ x :: vs) with ((vs0 ++ [x]) ++ vs) by (rewrite <- app_assoc; reflexivity).
    apply IH, tallied_step, H.
Qed.

(** Keys tell colours apart: the decimal text of a byte has no comma and
    determines the byte. *)
Lemma decimal_of_byte (x : Z) : 0 <= x <= 255 -> decimal_checked x = true.
Proof. apply forall_byte_values. vm_compute. reflexivity. Qed.

Lemma decimal_comma_free (x : Z) : 0 <= x <= 255 -> comma_free (Str.ofZ 10 x) = true.
Proof.
  intros Hx. pose proof (decimal_of_byte x Hx) as H.
  unfold decimal_checked in H. apply andb_true_iff in H. tauto.
Qed.

Lemma decimal_inj (x y : Z) :
  0 <= x <= 255 -> 0 <= y <= 255 -> Str.ofZ 10 x = Str.ofZ 10 y -> x = y.
Proof.
  intros Hx Hy Heq. pose proof (decimal_of_byte x Hx) as H.
  unfold decimal_checked in H. apply andb_true_iff in H as [_ H].
  rewrite forallb_forall in H.
  assert (Hin : In (Z.to_nat y) (seq 0 256)) by (apply in_seq; lia).
  specialize (H (Z.to_nat y) Hin).
  rewrite Z2Nat.id in H by lia. rewrite Heq, String.eqb_refl in H.
  apply Z.eqb_eq, H.
Qed.

Lemma split_at_comma (a a' r r' : string) :
  comma_free a = true -> comma_free a' = true ->
  a +:+ String "," r = a' +:+ String "," r' -> a = a' /\ r = r'.
Proof.
  revert a'. induction a as [|c a IH]; intros [|c' a']; simpl; intros Ha Ha' Heq.
  - injection Heq as ->. tauto.
  - injection Heq as <- _. discriminate Ha'.
  - injection Heq as -> _. discriminate Ha.
  - injection Heq as -> Heq.
    apply andb_true_iff in Ha as [_ Ha]. apply andb_true_iff in Ha' as [_ Ha'].
    destruct (IH a' Ha Ha' Heq) as [-> ->]. tauto.
Qed.

Lemma keyOf_inj (u v : Z * Z * Z) :
  inByteRange u -> inByteRange v -> keyOf u = keyOf v -> u = v.
Proof.
  destruct u as [[x y] z], v as [[x' y'] z']. simpl.
  intros (Hx & Hy & Hz) (Hx' & Hy' & Hz') Heq.
  unfold colorKey, Chan.toString in Heq.
  change ("," +:+ ?s) with (String "," s) in Heq.
  apply split_at_comma in Heq as [Ex Heq]; try (apply decimal_comma_free; assumption).
  apply split_at_comma in Heq as [Ey Ez]; try (apply decimal_comma_free; assumption).
  apply decimal_inj in Ex, Ey, Ez; try assumption. subst. reflexivity.
Qed.

Lemma same_color_eq (u v : Z * Z * Z) : same_color u v = true <-> u = v.
Proof.
  destruct u as [[x y] z], v as [[x' y'] z']. simpl.
  rewrite !andb_true_iff, !Z.eqb_eq. split.
  - intros [[-> ->] ->]. reflexivity.
  - intros [= -> -> ->]. tauto.
Qed.

Lemma occurrences_le_keyCount (v : Z * Z * Z) (l : list (Z * Z * Z)) :
  occurrences v l <= keyCount (keyOf v) l.
Proof.
  induction l as [|x l IH]; simpl; [lia|].
  destruct (same_color x v) eqn:E.
  - apply same_color_eq in E as ->. rewrite String.eqb_refl. lia.
  - destruct (String.eqb _ _); lia.
Qed.

Lemma keyCount_occurrences (v : Z * Z * Z) (l : list (Z * Z * Z)) :
  inByteRange v -> (forall x, In x l -> inByteRange x) ->
  keyCount (keyOf v) l = occurrences v l.
Proof.
  intros Hv. induction l as [|x l IH]; simpl; intros Hl; [reflexivity|].
  rewrite IH by (intros y Hy; apply Hl; right; exact Hy).
  destruct (String.eqb_spec (keyOf x) (keyOf v)) as [E|E].
  - apply keyOf_inj in E; [|apply Hl; left; reflexivity | exact Hv].
    subst x. rewrite (proj2 (same_color_eq v v) eq_refl). reflexivity.
  - destruct (same_color x v) eqn:E'; [|reflexivity].
    apply same_color_eq in E' as ->. contradiction.
Qed.

Lemma votes_in_byte_range (img : RawImage) (v : Z * Z * Z) :
  In v (votes img) -> inByteRange v.
Proof.
  unfold votes. intros H. apply in_map_iff in H as (p & <- & Hp).
  apply filter_In in Hp as [Hp _]. unfold pixels in Hp.
  apply in_map_iff in Hp as (k & <- & _). unfold pixelAt, quantized, inByteRange.
  pose proof (byteAt_range (data img) (k * channel_count (channels img))).
  pose proof (byteAt_range (data img) (k * channel_count (channels img) + 1)).
  pose proof (byteAt_range (data img) (k * channel_count (channels img) + 2)).
  repeat split;
    match goal with
    | |- 0 <= ?x / 8 * 8 => pose proof (Z.div_pos x 8); lia
    | |- ?x / 8 * 8 <= 255 => pose proof (Z.mul_div_le x 8); lia
    end.
Qed.

Lemma occurrences_nonneg (v : Z * Z * Z) (l : list (Z * Z * Z)) : 0 <= occurrences v l.
Proof. induction l as [|x l IH]; simpl; [lia | destruct (same_color x v); lia]. Qed.

Lemma dominantColor_votes (img : RawImage) :
  isRGBorRGBA img = true ->
  match dominantColor img with
  | None => votes img = []
  | Some c =>
      exists v, c = rgbOf v /\ In v (votes img) /\
        forall v', occurrences v' (votes img) <= occurrences v (votes img)
  end.
Proof.
  intros Hwf. unfold dominantColor.
  rewrite fold_votePixel_pixels, fold_voteZ_votes by exact Hwf. fold (votes img).
  pose proof (votes_in_byte_range img) as Hrange.
  set (vs := votes img) in *. set (cm := fold_left addVote vs []).
  destruct (tallied_fold vs [] [] tallied_nil) as (Hnd & Hnone & Hsome).
  simpl in Hnd, Hnone, Hsome. fold cm in Hnd, Hnone, Hsome.
  pose proof (sort_head count (JsMap.values cm)) as Hsort.
  destruct (sort _ (JsMap.values cm)) as [|first rest].
  - destruct cm as [|e cm']; [|discriminate Hsort].
    destruct vs as [|x vs']; [reflexivity|].
    pose proof (keyCount_In (keyOf x) (x :: vs') x (or_introl eq_refl) eq_refl) as Hpos.
    rewrite (Hnone (keyOf x) eq_refl) in Hpos. lia.
  - destruct Hsort as [Hin Hmax].
    apply in_map_iff in Hin as ([key bucket] & Hb & Hin). simpl in Hb. subst bucket.
    apply (In_get _ _ _ Hnd) in Hin.
    destruct (Hsome _ _ Hin) as (Hcount & v & Hv & Hkey & Hrgb).
    exists v. split; [exact Hrgb|]. split; [exact Hv|].
    intros v'.
    rewrite <- (keyCount_occurrences v vs (Hrange v Hv) Hrange), Hkey, <- Hcount.
    pose proof (occurrences_le_keyCount v' vs) as Hle.
    destruct (JsMap.get cm (keyOf v')) as [b'|] eqn:E.
    + destruct (Hsome _ _ E) as [Hc' _].
      assert (Hb' : In b' (JsMap.values cm)).
      { apply in_map_iff. exists (keyOf v', b'). split; [reflexivity | apply get_In, E]. }
      specialize (Hmax b' Hb'). lia.
    + rewrite (Hnone _ E) in Hle. rewrite Hcount.
      pose proof (keyCount_nonneg key vs). lia.
Qed.

Lemma all_excluded_no_votes (img : RawImage) :
  forallb excluded (pixels img) = true -> votes img = [].
Proof.
  unfold votes. generalize (pixels img) as ps.
  induction ps as [|p ps IH]; simpl; [reflexivity|].
  intros H. apply andb_true_iff in H as [Hp Hps]. rewrite Hp. simpl. apply IH, Hps.
Qed.

(** C4. On an RGB or RGBA buffer, the per-frame detector leaves out every
    pixel whose three channels are all below 30 or all above 240, lets
    each other pixel vote for its colour quantized to multiples of 8
    (the integer part of v/8, times 8), and returns the colour with the
    most votes; it returns nothing exactly when no pixel votes, as when
    every pixel is excluded. The pixel (103, 250, 12) votes as
    (96, 248, 8). [analyzeFrameColors] is this detector applied to the
    buffer that sharp decodes from the frame. *)
Theorem analyzeFrameColors_most_voted (img : RawImage) :
  isRGBorRGBA img = true ->
  match dominantColor img with
  | None => votes img = []
  | Some c =>
      exists v, c = rgbOf v /\ In v (votes img) /\
        forall v', occurrences v' (votes img) <= occurrences v (votes img)
  end /\
  (forallb excluded (pixels img) = true -> dominantColor img = None) /\
  votes img = map quantized (List.filter (fun p => negb (excluded p)) (pixels img)) /\
  (forall x y z,
     excluded (x, y, z) = true <->
     (x < 30 /\ y < 30 /\ z < 30) \/ (240 < x /\ 240 < y /\ 240 < z)) /\
  (forall x y z, quantized (x, y, z) = (x / 8 * 8, y / 8 * 8, z / 8 * 8)) /\
  quantized (103, 250, 12) = (96, 248, 8) /\
  (forall env framePath colorType w,
     fst (analyzeFrameColors env framePath colorType w)
     = match sharp_raw env (clock w) framePath with
       | inr decoded => Ok (dominantColor decoded)
       | inl message => Throw (LibraryError message)
       end).
Proof.
  intros Hwf. pose proof (dominantColor_votes img Hwf) as H.
  split; [exact H|].
  split; [|split; [reflexivity|split; [|split; [reflexivity|split; [reflexivity|]]]]].
  - intros Hex. apply all_excluded_no_votes in Hex.
    destruct (dominantColor img) as [c|]; [|reflexivity].
    destruct H as (v & _ & Hv & _). rewrite Hex in Hv. destruct Hv.
  - intros x y z. unfold excluded.
    rewrite orb_true_iff, !andb_true_iff, !Z.ltb_lt. tauto.
  - intros env framePath colorType w. unfold analyzeFrameColors, bind, sharpRaw.
    destruct (sharp_raw env (clock w) framePath); reflexivity.
Qed.

Lemma analyzeFrameColors_most_voted_witness :
  isRGBorRGBA sample_image = true /\
  dominantColor sample_image = Some (rgbOf (96, 248, 8)) /\
  match dominantColor sample_image with
  | None => votes sample_image = []
  | Some c =>
      exists v, c = rgbOf v /\ In v (votes sample_image) /\
        forall v', occurrences v' (votes sample_image) <= occurrences v (votes sample_image)
  end.
Proof.
  split; [reflexivity|]. split; [reflexivity|].
  exact (proj1 (analyzeFrameColors_most_voted sample_image eq_refl)).
Defined.

(** ** Aggregate detection *)

Lemma agreement_app (hex : string) (l1 l2 : list string) :
  agreement hex (l1 ++ l2) = agreement hex l1 + agreement hex l2.
Proof. induction l1 as [|x l1 IH]; simpl; [reflexivity | rewrite IH; lia]. Qed.

Lemma agreement_nonneg (hex : string) (l : list string) : 0 <= agreement hex l.
Proof. induction l as [|x l IH]; simpl; [lia | destruct (String.eqb x hex); lia]. Qed.

Lemma agreement_zero (hex : string) (l : list string) :
  agreement hex l = 0 -> ~ In hex l.
Proof.
  induction l as [|x l IH]; simpl; [tauto|].
  pose proof (agreement_nonneg hex l) as Hn.
  destruct (String.eqb_spec x hex) as [->|Hne]; [lia|].
  intros H [Heq|Hin]; [contradiction | exact (IH H Hin)].
Qed.

(** The tally after the votes [seen], started from the tally [m] of the
    votes [before]: every key with its number of votes, keys distinct. *)
Lemma tally_counts (hexes before : list string) (m : list (string * Z)) :
  NoDup (map fst m) ->
  (forall h, JsMap.get m h
             = if agreement h before =? 0 then None else Some (agreement h before)) ->
  let m' := fold_left (fun m hex => JsMap.set m hex (default 0 (JsMap.get m hex) + 1))
                      hexes m in
  NoDup (map fst m') /\
  (forall h, JsMap.get m' h
             = if agreement h (before ++ hexes) =? 0 then None
               else Some (agreement h (before ++ hexes))).
Proof.
  revert before m. induction hexes as [|x hexes IH]; intros before m Hnd Hget; simpl.
  - rewrite app_nil_r. split; assumption.
  - replace (before ++ x :: hexes) with ((before ++ [x]) ++ hexes)
      by (rewrite <- app_assoc; reflexivity).
    apply IH; [apply NoDup_keys_set, Hnd|].
    intros h. rewrite agreement_app. simpl.
    pose proof (agreement_nonneg h before) as Hh.
    destruct (String.eqb_spec x h) as [->|Hne].
    + rewrite get_set_eq, Hget.
      destruct (Z.eqb_spec (agreement h before) 0) as [E|E]; simpl.
      * rewrite E. reflexivity.
      * destruct (Z.eqb_spec (agreement h before + (1 + 0)) 0); [lia|].
        f_equal; lia.
    + rewrite get_set_ne by exact Hne. rewrite Hget.
      replace (agreement h before + (0 + 0)) with (agreement h before) by lia.
      reflexivity.
Qed.

Lemma tallyOf_get (hexes : list string) (h : string) :
  JsMap.get (tallyOf hexes) h
  = if agreement h hexes =? 0 then None else Some (agreement h hexes).
Proof.
  exact (proj2 (tally_counts hexes [] [] (NoDup_nil_2 (A:=string)) (fun _ => eq_refl)) h).
Qed.

Lemma tallyOf_entries (hexes : list string) (h : string) (c : Z) :
  In (h, c) (tallyOf hexes) <-> c = agreement h hexes /\ 0 < c.
Proof.
  pose proof (proj1 (tally_counts hexes [] [] (NoDup_nil_2 (A:=string)) (fun _ => eq_refl))) as Hnd.
  simpl in Hnd. fold (tallyOf hexes) in Hnd.
  pose proof (tallyOf_get hexes h) as Hget. pose proof (agreement_nonneg h hexes).
  split.
  - intros Hin. apply (In_get _ _ _ Hnd) in Hin. rewrite Hin in Hget.
    destruct (Z.eqb_spec (agreement h hexes) 0); [discriminate|].
    injection Hget as ->. lia.
  - intros [-> Hpos]. apply get_In. rewrite Hget.
    destruct (Z.eqb_spec (agreement h hexes) 0); [lia | reflexivity].
Qed.

(** The keys of the tally are the distinct votes in first-seen order. *)
Lemma tallyOf_keys (hexes : list string) : map fst (tallyOf hexes) = firstSeen hexes.
Proof.
  unfold tallyOf, firstSeen.
  assert (H : forall (m : list (string * Z)) (seen : list string),
             map fst m = seen ->
             map fst (fold_left (fun m hex => JsMap.set m hex (default 0 (JsMap.get m hex) + 1))
                                hexes m)
             = fold_left (fun seen hex => if bool_decide (hex ∈ seen) then seen else seen ++ [hex])
                         hexes seen); [|apply H; reflexivity].
  induction hexes as [|x hexes IH]; intros m seen Hm; simpl; [exact Hm|].
  apply IH. rewrite keys_set, Hm.
  destruct (JsMap.get m x) as [c|] eqn:E.
  - apply get_In in E. rewrite bool_decide_eq_true_2; [reflexivity|].
    rewrite <- Hm. apply list_elem_of_In, in_map_iff. exists (x, c). tauto.
  - apply get_None_keys in E. rewrite bool_decide_eq_false_2; [reflexivity|].
    rewrite <- Hm. intros Hin. apply E, list_elem_of_In, Hin.
Qed.

(** [pickBest] keeps the running best unless an entry beats it
    strictly, so it ends on the first entry that carries the largest
    count. *)
Lemma pickBest_first_maximum (entries : list (string * Z)) :
  forall (best : option string) (bestCount : Z),
    (pickBest entries best bestCount = best /\
     forall h c, In (h, c) entries -> c <= bestCount) \/
    (exists before h c after,
       entries = before ++ (h, c) :: after /\
       pickBest entries best bestCount = Some h /\
       bestCount < c /\
       (forall h' c', In (h', c') before -> c' < c) /\
       (forall h' c', In (h', c') after -> c' <= c)).
Proof.
  induction entries as [|[h c] rest IH]; intros best bc; simpl.
  - left. split; [reflexivity | tauto].
  - destruct (Z.ltb_spec bc c) as [Hlt|Hge].
    + destruct (IH (Some h) c) as [[Hres Hall]|(before & h2 & c2 & after & -> & Hres & Hc & Hb & Ha)].
      * right. exists [], h, c, rest. repeat split; try assumption; simpl; tauto.
      * right. exists ((h, c) :: before), h2, c2, after.
        repeat split; try assumption; try lia.
        intros h' c' [[= <- <-]|Hin]; [lia | eauto].
    + destruct (IH best bc) as [[Hres Hall]|(before & h2 & c2 & after & -> & Hres & Hc & Hb & Ha)].
      * left. split; [exact Hres|]. intros h' c' [[= <- <-]|Hin]; [lia | eauto].
      * right. exists ((h, c) :: before), h2, c2, after.
        repeat split; try assumption.
        intros h' c' [[= <- <-]|Hin]; [lia | eauto].
Qed.

Lemma majority_first_seen (hexes : list string) :
  match pickBest (tallyOf hexes) None 0 with
  | None => hexes = []
  | Some h =>
      exists before after,
        tallyOf hexes = before ++ (h, agreement h hexes) :: after /\
        0 < agreement h hexes /\
        (forall h' c', In (h', c') before -> c' < agreement h hexes) /\
        (forall h' c', In (h', c') after -> c' <= agreement h hexes) /\
        (forall h', agreement h' hexes <= agreement h hexes)
  end.
Proof.
  destruct (pickBest_first_maximum (tallyOf hexes) None 0)
    as [[-> Hall]|(before & h & c & after & Heq & -> & Hc & Hb & Ha)].
  - destruct hexes as [|x hexes]; [reflexivity|]. exfalso.
    assert (Hpos : 0 < agreement x (x :: hexes)).
    { simpl. rewrite String.eqb_refl. pose proof (agreement_nonneg x hexes). lia. }
    specialize (Hall x (agreement x (x :: hexes))).
    rewrite tallyOf_entries in Hall. lia.
  - assert (Hin : In (h, c) (tallyOf hexes)) by (rewrite Heq; apply in_elt).
    apply tallyOf_entries in Hin as [-> _].
    exists before, after. repeat split; try assumption.
    intros h'. pose proof (agreement_nonneg h' hexes) as Hn.
    destruct (Z.eq_dec (agreement h' hexes) 0) as [->|Hne]; [lia|].
    assert (Hin' : In (h', agreement h' hexes) (tallyOf hexes))
      by (apply tallyOf_entries; lia).
    rewrite Heq in Hin'. apply in_app_or in Hin' as [Hin'|[[= <-]|Hin']].
    + specialize (Hb _ _ Hin'). lia.
    + lia.
    + exact (Ha _ _ Hin').
Qed.

Lemma cleanupFrames_ok (env : Env) (framePaths : list string) (w : World) :
  fst (cleanupFrames env framePaths w) = Ok tt.
Proof.
  revert w. induction framePaths as [|p ps IH]; intros w; simpl; [reflexivity|].
  unfold bind, tryIgnore. destruct (unlink env p w) as [res w1]. apply IH.
Qed.

Lemma finally_ok {A : Type} (res : Result A) (fin : M unit) (w : World) :
  fst (fin w) = Ok tt -> fst (finally res fin w) = res.
Proof.
  unfold finally. destruct (fin w) as [[[]|e] w']; simpl; [reflexivity | discriminate].
Qed.

(** [extractFrame] probes the duration, then runs ffmpeg once, seeking
    to the position computed from the duration and the percentage. *)
Lemma extractFrame_seeks (env : Env) (inputPath : string) (percentage : Z) (w : World) :
  exists duration,
    fst (getVideoDuration env inputPath (tick w)) = Ok duration /\
    log (snd (extractFrame env inputPath percentage w))
    = log w ++
      [Spawned "ffprobe"
         ["-v"; "error"; "-show_entries"; "format=duration"; "-of"; "csv=p=0"; inputPath];
       Spawned (ffmpegPath env)
         ["-ss"; timestampText env duration percentage; "-i"; inputPath;
          "-frames:v"; "1"; "-y";
          join (tmpdir env) ("frame_" +:+ uuidv4 env (clock w) +:+ ".png")]].
Proof.
  unfold extractFrame, bind, uuid. cbn [fst snd].
  assert (Hd : exists d w1,
             getVideoDuration env inputPath (tick w) = (Ok d, w1) /\
             log w1 = log w ++
               [Spawned "ffprobe"
                  ["-v"; "error"; "-show_entries"; "format=duration"; "-of"; "csv=p=0";
                   inputPath]]).
  { unfold getVideoDuration, bind, spawnProcess. cbn [fst snd].
    match goal with
    | |- context [ending ?run] => destruct (ending run) as [[[|c|c]|]|m]
    end; eexists; eexists; split; reflexivity. }
  destruct Hd as (d & w1 & -> & Hl1). exists d. split; [reflexivity|].
  match goal with
  | |- context [runFfmpegCommand env ?a w1] =>
      destruct (runFfmpegCommand_effects env a w1) as [Hl2 _];
      destruct (runFfmpegCommand env a w1) as [[[]|e] w2]
  end; simpl in Hl2 |- *; rewrite Hl2, Hl1, <- app_assoc; reflexivity.
Qed.



(** ** Detected colours are quantized *)

Lemma quantizedByte_of_byte (a : Z) : 0 <= a <= 255 -> quantizedByte (a / 8 * 8).
Proof.
  intros Ha. unfold quantizedByte. split; [apply Z.mod_mul; lia|].
  assert (0 <= a / 8) by (apply Z.div_pos; lia).
  assert (a / 8 < 32) by (apply Z.div_lt_upper_bound; lia).
  lia.
Qed.

Lemma votes_quantized (img : RawImage) (v : Z * Z * Z) :
  In v (votes img) ->
  let '(x, y, z) := v in quantizedByte x /\ quantizedByte y /\ quantizedByte z.
Proof.
  unfold votes. intros H. apply in_map_iff in H as (p & <- & Hp).
  apply filter_In in Hp as [Hp _]. unfold pixels in Hp.
  apply in_map_iff in Hp as (k & <- & _). unfold pixelAt, quantized.
  repeat split; apply quantizedByte_of_byte, byteAt_range.
Qed.

Lemma dominantColor_quantizedHex (img : RawImage) (col : RGB) :
  isRGBorRGBA img = true -> dominantColor img = Some col -> quantizedHex (rgbToHex col).
Proof.
  intros Hwf Hcol. pose proof (dominantColor_votes img Hwf) as H. rewrite Hcol in H.
  destruct H as ([[x y] z] & -> & Hv & _).
  apply votes_quantized in Hv as (Hx & Hy & Hz).
  exists x, y, z. split; [|tauto].
  change (rgbOf (x, y, z)) with {| r := Chan.Num x; g := Chan.Num y; b := Chan.Num z |}.
  destruct (rgbToHex_encodes x y z) as (_ & _ & ->).
  unfold quantizedByte, clamp255 in *. repeat f_equal; lia.
Qed.

Lemma quantizedHex_not_saturated (hex : string) :
  quantizedHex hex -> hex <> "00FF00" /\ hex <> "0000FF".
Proof.
  intros (x & y & z & Hc & (Hx & _) & (Hy & _) & (Hz & _)).
  split; intros ->; vm_compute in Hc; injection Hc as <- <- <-; discriminate.
Qed.

Lemma analyzeFrameColors_decoded (env : Env) (framePath : string) (ct : ColorType)
    (w w' : World) (color : option RGB) :
  analyzeFrameColors env framePath ct w = (Ok color, w') ->
  exists img, sharp_raw env (clock w) framePath = inr img /\ color = dominantColor img.
Proof.
  unfold analyzeFrameColors, bind, sharpRaw, ret.
  destruct (sharp_raw env (clock w) framePath) as [e|img]; [discriminate|].
  intros [= <- _]. exists img. tauto.
Qed.

Lemma sampleFrames_keys (env : Env) (inputPath : string) (ct : ColorType)
    (P : string -> Prop) :
  (forall n path img col,
     sharp_raw env n path = inr img -> dominantColor img = Some col -> P (rgbToHex col)) ->
  forall percentages framePaths colorCounts w counts framePaths' w',
    (forall h, In h (map fst colorCounts) -> P h) ->
    sampleFrames env inputPath ct percentages framePaths colorCounts w
    = (Ok counts, framePaths', w') ->
    forall h, In h (map fst counts) -> P h.
Proof.
  intros Hdec percentages.
  induction percentages as [|p ps IH]; intros fps cc w counts fps' w' Hcc; simpl.
  - intros [= <- _ _]. exact Hcc.
  - destruct (extractFrame env inputPath p w) as [[f|e] w1]; [|discriminate].
    destruct (analyzeFrameColors env f ct w1) as [[color|e] w2] eqn:Ha; [|discriminate].
    apply IH. apply analyzeFrameColors_decoded in Ha as (img & Himg & ->).
    destruct (dominantColor img) as [col|] eqn:Hcol; [|exact Hcc].
    intros h Hh. rewrite keys_set in Hh.
    assert (Hin : In h (map fst cc) \/ h = rgbToHex col).
    { destruct (JsMap.get cc (rgbToHex col)); [left; exact Hh|].
      apply in_app_or in Hh as [Hh|[<-|[]]]; tauto. }
    destruct Hin as [Hin| ->]; [exact (Hcc h Hin) | exact (Hdec _ _ _ _ Himg Hcol)].
Qed.

Lemma pickBest_in (entries : list (string * Z)) (best : option string) (bc : Z) (h : string) :
  pickBest entries best bc = Some h -> best = Some h \/ In h (map fst entries).
Proof.
  revert best bc. induction entries as [|[h0 c0] rest IH]; intros best bc; simpl.
  - tauto.
  - destruct (bc <? c0); intros H; apply IH in H as [H|H]; try tauto.
    injection H as ->. tauto.
Qed.

Lemma findDominantChromaColor_from_tally (env : Env) (inputPath : string) (ct : ColorType)
    (w : World) (best : option string) :
  fst (findDominantChromaColor env inputPath ct w) = Ok best ->
  exists counts framePaths w1,
    sampleFrames env inputPath ct [5; 25; 50] [] [] w = (Ok counts, framePaths, w1) /\
    best = pickBest counts None 0.
Proof.
  unfold findDominantChromaColor.
  destruct (sampleFrames env inputPath ct [5; 25; 50] [] [] w) as [[sampled fps] w1].
  rewrite finally_ok by apply cleanupFrames_ok.
  destruct sampled as [counts|e]; [|discriminate].
  intros [= <-]. exists counts, fps, w1. tauto.
Qed.

(** Outside that case the detector reads past the end of the buffer: a
    one-channel buffer holding the single byte 100 gives the colour
    (96, NaN, NaN), which [rgbToHex] prints with eight characters. *)
Example single_channel_buffer :
  dominantColor {| data := [Byte.x64]; channels := Ch1 |}
  = Some {| r := Chan.Num 96; g := Chan.NaN; b := Chan.NaN |} /\
  rgbToHex {| r := Chan.Num 96; g := Chan.NaN; b := Chan.NaN |} = "60NANNAN".
Proof. split; reflexivity. Qed.

(** C10. With a decoder that yields RGB or RGBA buffers, every colour
    that [findDominantChromaColor] returns encodes three channels that
    are multiples of 8 between 0 and 248; so it is never one of the
    preset colours 00FF00 and 0000FF, whose saturated channel 255 is
    out of reach (a byte 255 quantizes to 248, F8). *)
Theorem detected_color_is_quantized
    (env : Env) (inputPath : string) (colorType : ColorType) (w : World) (hex : string) :
  decodesRGB env ->
  fst (findDominantChromaColor env inputPath colorType w) = Ok (Some hex) ->
  (exists x y z,
     hexChannels hex = Some (x, y, z) /\
     (x mod 8 = 0 /\ 0 <= x <= 248) /\
     (y mod 8 = 0 /\ 0 <= y <= 248) /\
     (z mod 8 = 0 /\ 0 <= z <= 248)) /\
  hex <> "00FF00" /\ hex <> "0000FF" /\
  255 / 8 * 8 = 248.
Proof.
  intros Hdec Hres.
  assert (Hq : quantizedHex hex).
  { apply findDominantChromaColor_from_tally in Hres as (counts & fps & w1 & Hs & Hbest).
    symmetry in Hbest. apply pickBest_in in Hbest as [Hbest|Hin]; [discriminate|].
    revert hex Hin.
    refine (sampleFrames_keys env inputPath colorType quantizedHex _
              [5; 25; 50] [] [] w counts fps w1 _ Hs).
    - intros n path img col Himg Hcol.
      exact (dominantColor_quantizedHex img col (Hdec _ _ _ Himg) Hcol).
    - intros h []. }
  split; [exact Hq|]. destruct (quantizedHex_not_saturated hex Hq). tauto.
Qed.

Lemma detected_color_is_quantized_witness :
  decodesRGB env_ten_seconds /\
  fst (findDominantChromaColor env_ten_seconds "in.mp4" Green world0) = Ok (Some "60F808") /\
  "60F808" <> "00FF00" /\ "60F808" <> "0000FF".
Proof.
  assert (Hdec : decodesRGB env_ten_seconds) by (intros n path img [= <-]; reflexivity).
  split; [exact Hdec|]. split; [reflexivity|].
  pose proof (detected_color_is_quantized
                env_ten_seconds "in.mp4" Green world0 "60F808" Hdec eq_refl) as H.
  tauto.
Defined.

(** ** Temporary files *)

(** What each step does to the disk and to the log. *)

Lemma getVideoDuration_effects (env : Env) (inputPath : string) (w : World) :
  let out := getVideoDuration env inputPath w in
  (exists d, fst out = Ok d) /\
  (exists evs, log (snd out) = log w ++ evs) /\
  forall p, p ∈ files (snd out) -> p ∈ files w.
Proof.
  cbv zeta. unfold getVideoDuration, bind.
  match goal with
  | |- context [spawnProcess env ?c ?a false w] =>
      destruct (spawnProcess_effects env c a false w) as (Hr & Hlog & Hfiles);
      destruct (spawnProcess env c a false w) as [res w1]
  end.
  simpl in Hr, Hlog, Hfiles. subst res.
  match goal with
  | |- context [ending ?run] => destruct (ending run) as [[[|c|c]|]|m]
  end; simpl; (split; [eauto|]); (split; [eauto|]);
    intros p Hp; destruct (Hfiles p Hp) as [H|(H & _)]; (exact H || discriminate H).
Qed.

Lemma extractFrame_effects (env : Env) (inputPath : string) (percentage : Z) (w : World) :
  let out := extractFrame env inputPath percentage w in
  (exists evs, log (snd out) = log w ++ evs) /\
  match fst out with
  | Ok framePath => forall p, p ∈ files (snd out) -> p ∈ files w \/ p = framePath
  | Throw _ => forall p, p ∈ files (snd out) -> p ∈ files w
  end.
Proof.
  cbv zeta. unfold extractFrame, bind, uuid. cbn [fst snd].
  destruct (getVideoDuration_effects env inputPath (tick w)) as ((d & Hd) & (e1 & Hl1) & Hf1).
  destruct (getVideoDuration env inputPath (tick w)) as [res w1].
  simpl in Hd, Hl1, Hf1. subst res.
  match goal with
  | |- context [runFfmpegCommand env ?a w1] =>
      destruct (runFfmpegCommand_effects env a w1) as (Hl2 & Hf2);
      destruct (runFfmpegCommand env a w1) as [[[]|e] w2]
  end; simpl in Hl2, Hf2 |- *.
  - split; [exists (e1 ++ [Spawned (ffmpegPath env)
        ["-ss"; timestampText env d percentage; "-i"; inputPath; "-frames:v"; "1"; "-y";
         join (tmpdir env) ("frame_" +:+ uuidv4 env (clock w) +:+ ".png")]]);
      rewrite Hl2, Hl1, app_assoc; reflexivity|].
    intros p Hp. destruct (Hf2 p Hp) as [H|H]; [left; apply Hf1, H|].
    right. injection H as <-. reflexivity.
  - split; [eexists; rewrite Hl2, Hl1, <- app_assoc; reflexivity|].
    intros p Hp. apply Hf1, Hf2, Hp.
Qed.

Lemma analyzeFrameColors_effects (env : Env) (framePath : string) (ct : ColorType)
    (w : World) :
  let out := analyzeFrameColors env framePath ct w in
  log (snd out) = log w /\ files (snd out) = files w.
Proof.
  cbv zeta. unfold analyzeFrameColors, bind, sharpRaw.
  destruct (sharp_raw env (clock w) framePath); simpl; tauto.
Qed.

Lemma sampleFrames_effects (env : Env) (inputPath : string) (ct : ColorType)
    (percentages : list Z) :
  forall framePaths colorCounts w,
    let out := sampleFrames env inputPath ct percentages framePaths colorCounts w in
    (exists evs, log (snd out) = log w ++ evs) /\
    forall p, p ∈ files (snd out) -> p ∈ files w \/ In p (snd (fst out)).
Proof.
  induction percentages as [|pct ps IH]; intros fps cc w; cbv zeta; simpl.
  - split; [exists []; rewrite app_nil_r; reflexivity | tauto].
  - destruct (extractFrame_effects env inputPath pct w) as ((e1 & Hl1) & Hf1).
    destruct (extractFrame env inputPath pct w) as [[f|e] w1]; simpl in Hl1, Hf1 |- *.
    2: { split; [eauto|]. intros p Hp. left. apply Hf1, Hp. }
    destruct (analyzeFrameColors_effects env f ct w1) as (Hl2 & Hf2).
    destruct (analyzeFrameColors env f ct w1) as [[color|e] w2]; simpl in Hl2, Hf2 |- *.
    2: { split; [exists e1; congruence|]. intros p Hp. rewrite Hf2 in Hp.
         destruct (Hf1 p Hp) as [H| ->]; [tauto|]. right. apply in_or_app. simpl. tauto. }
    match goal with
    | |- context [sampleFrames env inputPath ct ps ?fps' ?cc' w2] =>
        destruct (IH fps' cc' w2) as ((e3 & Hl3) & Hf3)
    end.
    assert (Hmono : forall q fps0 cc0 w0,
               In q fps0 ->
               In q (snd (fst (sampleFrames env inputPath ct ps fps0 cc0 w0)))).
    { clear. induction ps as [|pct ps IH]; intros q fps0 cc0 w0 Hq; simpl; [exact Hq|].
      destruct (extractFrame env inputPath pct w0) as [[f|e] w1]; [|exact Hq].
      destruct (analyzeFrameColors env f ct w1) as [[color|e] w2]; simpl.
      - apply IH. apply in_or_app. tauto.
      - apply in_or_app. tauto. }
    split; [exists (e1 ++ e3); rewrite Hl3, Hl2, Hl1, app_assoc; reflexivity|].
    intros p Hp. destruct (Hf3 p Hp) as [H|H]; [|tauto].
    rewrite Hf2 in H. destruct (Hf1 p H) as [H'| ->]; [tauto|].
    right. apply Hmono. apply in_or_app. simpl. tauto.
Qed.

Lemma unlink_effects (env : Env) (path : string) (w : World) :
  let out := tryIgnore (unlink env path) w in
  fst out = Ok tt /\
  exists ok, log (snd out) = log w ++ [Unlinked path ok] /\
    forall p, p ∈ files (snd out) -> p ∈ files w /\ (p = path -> ok = false).
Proof.
  cbv zeta. unfold tryIgnore, unlink.
  destruct (unlink_ok env (clock w) path && bool_decide (path ∈ files w)); simpl;
    (split; [reflexivity|]); eexists; (split; [reflexivity|]); intros p Hp.
  - apply elem_of_difference in Hp as [Hp Hne]. split; [exact Hp|].
    intros ->. exfalso. apply Hne, elem_of_singleton. reflexivity.
  - tauto.
Qed.

Lemma cleanupFrames_effects (env : Env) (framePaths : list string) :
  forall w,
    let out := cleanupFrames env framePaths w in
    exists evs, log (snd out) = log w ++ evs /\
      forall p, p ∈ files (snd out) ->
        p ∈ files w /\ (In p framePaths -> In (Unlinked p false) evs).
Proof.
  induction framePaths as [|f fps IH]; intros w; cbv zeta; simpl.
  - exists []. rewrite app_nil_r. split; [reflexivity|]. tauto.
  - unfold bind.
    destruct (unlink_effects env f w) as (Hr & ok & Hl1 & Hf1).
    destruct (tryIgnore (unlink env f) w) as [res w1]. simpl in Hr, Hl1, Hf1. subst res.
    destruct (IH w1) as (e2 & Hl2 & Hf2).
    exists (Unlinked f ok :: e2). split; [rewrite Hl2, Hl1, <- app_assoc; reflexivity|].
    intros p Hp. destruct (Hf2 p Hp) as [Hp1 Hin]. destruct (Hf1 p Hp1) as [Hp0 Hok].
    split; [exact Hp0|]. intros [->|Hq].
    + left. rewrite (Hok eq_refl). reflexivity.
    + right. exact (Hin Hq).
Qed.

Lemma findDominantChromaColor_effects (env : Env) (inputPath : string) (ct : ColorType)
    (w : World) :
  let out := findDominantChromaColor env inputPath ct w in
  exists evs, log (snd out) = log w ++ evs /\
    forall p, p ∈ files (snd out) ->
      In (Unlinked p false) evs \/
      (p ∈ files w /\ ~ In p (sampledFramePaths env inputPath ct w)).
Proof.
  cbv zeta. unfold findDominantChromaColor, sampledFramePaths.
  destruct (sampleFrames_effects env inputPath ct [5; 25; 50] [] [] w) as ((e1 & Hl1) & Hf1).
  destruct (sampleFrames env inputPath ct [5; 25; 50] [] [] w) as [[sampled fps] w1].
  simpl in Hl1, Hf1 |- *.
  destruct (cleanupFrames_effects env fps w1) as (e2 & Hl2 & Hf2).
  pose proof (cleanupFrames_ok env fps w1) as Hok.
  unfold finally. destruct (cleanupFrames env fps w1) as [[[]|e] w2]; [|discriminate Hok].
  simpl in Hl2, Hf2 |- *.
  exists (e1 ++ e2). split; [rewrite Hl2, Hl1, app_assoc; reflexivity|].
  intros p Hp. destruct (Hf2 p Hp) as [Hp1 Hfail].
  destruct (in_dec string_dec p fps) as [Hin|Hout].
  - left. apply in_or_app. right. exact (Hfail Hin).
  - right. split; [|exact Hout]. destruct (Hf1 p Hp1); tauto.
Qed.

Lemma join_truthy (dir name : string) : Str.truthy (join dir name) = true.
Proof. unfold join. destruct dir; reflexivity. Qed.

Lemma downloadVideo_effects (env : Env) (url sessionId : string) (w : World) :
  let out := downloadVideo env url sessionId w in
  log (snd out) = log w /\
  match fst out with
  | Ok outputPath =>
      Str.truthy outputPath = true /\
      forall p, p ∈ files (snd out) -> p ∈ files w \/ p = outputPath
  | Throw _ => forall p, p ∈ files (snd out) -> p ∈ files w
  end.
Proof.
  cbv zeta. unfold downloadVideo, bind, mkdir, axios, writeFile, throw, ret.
  destruct (mkdir_ok env (clock w) (tempDir env)); simpl; [|tauto].
  destruct (url_extname env url) as [ext|]; simpl; [|tauto].
  destruct (axios_get env (S (clock w)) url); simpl; [tauto|].
  destruct (writeFile_ok env _ _); simpl; [|tauto].
  split; [reflexivity|]. split; [apply join_truthy|]. intros p Hp.
  apply elem_of_union in Hp as [Hp|Hp]; [|tauto].
  apply elem_of_singleton in Hp. tauto.
Qed.

Lemma resolveInput_effects (env : Env) (dto : ProcessVideoDto)
    (uploadedFile : option UploadedFile) (sessionId : string) (w : World) :
  let out := resolveInput env dto uploadedFile sessionId w in
  log (snd out) = log w /\
  forall p, p ∈ files (snd out) -> p ∈ files w \/ truthy_string (snd (fst out)) = Some p.
Proof.
  cbv zeta. unfold resolveInput.
  destruct uploadedFile as [f|]; simpl; [tauto|].
  destruct (truthy_string (videoUrl dto)) as [url|]; simpl; [|tauto].
  destruct (downloadVideo_effects env url sessionId w) as (Hl & Hf).
  destruct (downloadVideo env url sessionId w) as [[out|e] w1]; simpl in Hl, Hf |- *.
  - split; [exact Hl|]. destruct Hf as [Ht Hf].
    intros p Hp. destruct (Hf p Hp) as [H| ->]; [tauto|].
    right. rewrite Ht. reflexivity.
  - split; [exact Hl|]. intros p Hp. left. apply Hf, Hp.
Qed.

Lemma processChromaKey_effects (env : Env) (options : Options.t) (w : World) :
  let out := processChromaKey env options w in
  (exists evs, log (snd out) = log w ++ evs /\
     forall p ok, ~ In (Unlinked p ok) evs) /\
  forall p, p ∈ files (snd out) ->
    p ∈ files w \/
    exists id,
      (Options.sessionId options = Some id \/
       (Options.sessionId options = None /\ id = uuidv4 env (clock w))) /\
      In p [join (Options.outputDir options) (id +:+ "_mask.webm");
            join (Options.outputDir options) (id +:+ "_result.webm")].
Proof.
  cbv zeta. unfold processChromaKey.
  set (rs := getSettings _ (Options.resultSettings options)).
  set (ms := getSettings _ (Options.maskSettings options)).
  assert (Hid : exists id w0,
             (match Options.sessionId options with Some s => ret s | None => uuid env end) w
             = (Ok id, w0) /\
             log w0 = log w /\ files w0 = files w /\
             (Options.sessionId options = Some id \/
              (Options.sessionId options = None /\ id = uuidv4 env (clock w)))).
  { destruct (Options.sessionId options) as [s|]; simpl.
    - exists s, w. tauto.
    - exists (uuidv4 env (clock w)), (tick w). tauto. }
  destruct Hid as (id & w0 & Hrun & Hl0 & Hf0 & Hid).
  unfold bind. rewrite Hrun. unfold mkdir.
  destruct (mkdir_ok env (clock w0) (Options.outputDir options)); simpl.
  2: { split; [exists []; rewrite app_nil_r; split; [exact Hl0 | intros p ok []]|].
       intros p Hp. left. rewrite <- Hf0. exact Hp. }
  set (w1 := record (SettingsLogged ms rs) (tick w0)).
  match goal with
  | |- context [runFfmpegCommand env ?a w1] =>
      set (margs := a);
      destruct (runFfmpegCommand_effects env margs w1) as (Hl2 & Hf2);
      destruct (runFfmpegCommand env margs w1) as [[[]|e] w2]
  end; simpl in Hl2, Hf2 |- *.
  2: { split.
       - eexists. split; [rewrite Hl2; simpl; rewrite Hl0, <- app_assoc; reflexivity|].
         intros p ok [H|[H|[]]]; discriminate H.
       - intros p Hp. left. rewrite <- Hf0. exact (Hf2 p Hp). }
  match goal with
  | |- context [runFfmpegCommand env ?a w2] =>
      set (rargs := a);
      destruct (runFfmpegCommand_effects env rargs w2) as (Hl3 & Hf3);
      destruct (runFfmpegCommand env rargs w2) as [[[]|e] w3]
  end; simpl in Hl3, Hf3 |- *.
  - split.
    + eexists. split; [rewrite Hl3, Hl2; simpl; rewrite Hl0, <- !app_assoc; reflexivity|].
      intros p ok [H|[H|[H|[]]]]; discriminate H.
    + intros p Hp. destruct (Hf3 p Hp) as [H|H].
      * destruct (Hf2 p H) as [H'|H']; [left; rewrite <- Hf0; exact H'|].
        right. exists id. split; [exact Hid|]. injection H' as <-. left. reflexivity.
      * right. exists id. split; [exact Hid|]. injection H as <-. right. left. reflexivity.
  - split.
    + eexists. split; [rewrite Hl3, Hl2; simpl; rewrite Hl0, <- !app_assoc; reflexivity|].
      intros p ok [H|[H|[H|[]]]]; discriminate H.
    + intros p Hp. destruct (Hf2 p (Hf3 p Hp)) as [H'|H']; [left; rewrite <- Hf0; exact H'|].
      right. exists id. split; [exact Hid|]. injection H' as <-. left. reflexivity.
Qed.

Lemma detectColor_effects (env : Env) (dto : ProcessVideoDto) (inputPath : string)
    (w : World) :
  let out := detectColor env dto inputPath w in
  exists evs, log (snd out) = log w ++ evs /\
    forall p, p ∈ files (snd out) -> In (Unlinked p false) evs \/ p ∈ files w.
Proof.
  cbv zeta. unfold detectColor.
  destruct (autoDetectColor dto) as [[|]|]; simpl;
    try (exists []; rewrite app_nil_r; split; [reflexivity | tauto]).
  unfold bind.
  destruct (findDominantChromaColor_effects env inputPath (colorType dto) w) as (evs & Hl & Hf).
  destruct (findDominantChromaColor env inputPath (colorType dto) w) as [[d|e] w1];
    simpl in Hl, Hf |- *; exists evs; (split; [exact Hl|]);
    intros p Hp; destruct (Hf p Hp); tauto.
Qed.

Lemma processInput_effects (env : Env) (dto : ProcessVideoDto) (baseUrl : option string)
    (sessionId inputPath : string) (w : World) :
  let out := processInput env dto baseUrl sessionId inputPath w in
  exists evs, log (snd out) = log w ++ evs /\
    forall p, p ∈ files (snd out) ->
      In (Unlinked p false) evs \/
      In p [join (outputDir env) (sessionId +:+ "_mask.webm");
            join (outputDir env) (sessionId +:+ "_result.webm")] \/
      p ∈ files w.
Proof.
  cbv zeta. unfold processInput, bind.
  destruct (detectColor_effects env dto inputPath w) as (e1 & Hl1 & Hf1).
  destruct (detectColor env dto inputPath w) as [[detected|e] w1]; simpl in Hl1, Hf1 |- *.
  2: { exists e1. split; [exact Hl1|]. intros p Hp. destruct (Hf1 p Hp); tauto. }
  match goal with
  | |- context [processChromaKey env ?o w1] =>
      destruct (processChromaKey_effects env o w1) as ((e2 & Hl2 & Hno) & Hf2);
      destruct (processChromaKey env o w1) as [[res|e] w2]
  end; simpl in Hl2, Hf2 |- *.
  all: exists (e1 ++ e2); (split; [rewrite Hl2, Hl1, app_assoc; reflexivity|]).
  all: intros p Hp; destruct (Hf2 p Hp) as [H|(id & [Hid|[Hid _]] & Hin)];
    try discriminate Hid.
  all: try (injection Hid as <-; tauto).
  all: destruct (Hf1 p H) as [H'|H']; [left; apply in_or_app; tauto | tauto].
Qed.

Lemma cleanupInputs_effects (env : Env) (tempInputPath : option string)
    (uploadedFile : option UploadedFile) (w : World) :
  let out := cleanupInputs env tempInputPath uploadedFile w in
  fst out = Ok tt /\
  exists evs, log (snd out) = log w ++ evs /\
    forall p, p ∈ files (snd out) ->
      p ∈ files w /\
      (truthy_string tempInputPath = Some p -> In (Unlinked p false) evs) /\
      (truthy_string (path <$> uploadedFile) = Some p -> In (Unlinked p false) evs).
Proof.
  cbv zeta. unfold cleanupInputs, bind.
  assert (H1 : exists w1 e1,
             (match truthy_string tempInputPath with
              | Some p => tryIgnore (unlink env p)
              | None => ret tt
              end) w = (Ok tt, w1) /\
             log w1 = log w ++ e1 /\
             forall p, p ∈ files w1 ->
               p ∈ files w /\ (truthy_string tempInputPath = Some p -> In (Unlinked p false) e1)).
  { destruct (truthy_string tempInputPath) as [q|].
    - destruct (unlink_effects env q w) as (Hr & ok & Hl & Hf).
      destruct (tryIgnore (unlink env q) w) as [res w1]. simpl in Hr, Hl, Hf. subst res.
      exists w1, [Unlinked q ok]. split; [reflexivity|]. split; [exact Hl|].
      intros p Hp. destruct (Hf p Hp) as [Hp0 Hok]. split; [exact Hp0|].
      intros [= ->]. left. rewrite (Hok eq_refl). reflexivity.
    - exists w, []. rewrite app_nil_r. split; [reflexivity|]. split; [reflexivity|].
      intros p Hp. split; [exact Hp | discriminate]. }
  destruct H1 as (w1 & e1 & -> & Hl1 & Hf1).
  destruct (truthy_string (path <$> uploadedFile)) as [q|].
  - destruct (unlink_effects env q w1) as (Hr & ok & Hl & Hf).
    destruct (tryIgnore (unlink env q) w1) as [res w2]. simpl in Hr, Hl, Hf |- *. subst res.
    split; [reflexivity|]. exists (e1 ++ [Unlinked q ok]).
    split; [rewrite Hl, Hl1, app_assoc; reflexivity|].
    intros p Hp. destruct (Hf p Hp) as [Hp1 Hok]. destruct (Hf1 p Hp1) as [Hp0 Htmp].
    split; [exact Hp0|]. split.
    + intros H. apply in_or_app. left. exact (Htmp H).
    + intros [= ->]. apply in_or_app. right. left. rewrite (Hok eq_refl). reflexivity.
  - simpl. split; [reflexivity|]. exists e1. split; [exact Hl1|].
    intros p Hp. destruct (Hf1 p Hp) as [Hp0 Htmp]. split; [exact Hp0|].
    split; [exact Htmp | discriminate].
Qed.

Lemma processVideo_effects (env : Env) (dto : ProcessVideoDto)
    (uploadedFile : option UploadedFile) (baseUrl : option string) (w : World) :
  let out := processVideo env dto uploadedFile baseUrl w in
  exists evs, log (snd out) = log w ++ evs /\
    forall p, p ∈ files (snd out) ->
      In (Unlinked p false) evs \/
      In p (requestOutputs env w) \/
      (p ∈ files w /\
       truthy_string (requestTempInput env dto uploadedFile w) <> Some p /\
       truthy_string (path <$> uploadedFile) <> Some p).
Proof.
  cbv zeta. unfold processVideo, requestOutputs, requestTempInput, bind, uuid.
  cbn [fst snd].
  set (sid := uuidv4 env (clock w)).
  destruct (resolveInput_effects env dto uploadedFile sid (tick w)) as (Hl1 & Hf1).
  destruct (resolveInput env dto uploadedFile sid (tick w)) as [[input tmp] w1].
  simpl in Hl1, Hf1 |- *.
  assert (H2 : exists outcome w2 e2,
             (match input with
              | Ok inputPath => processInput env dto baseUrl sid inputPath w1
              | Throw e => (Throw e, w1)
              end) = (outcome, w2) /\
             log w2 = log w1 ++ e2 /\
             forall p, p ∈ files w2 ->
               In (Unlinked p false) e2 \/
               In p [join (outputDir env) (sid +:+ "_mask.webm");
                     join (outputDir env) (sid +:+ "_result.webm")] \/
               p ∈ files w1).
  { destruct input as [inputPath|e].
    - destruct (processInput_effects env dto baseUrl sid inputPath w1) as (e2 & Hl2 & Hf2).
      destruct (processInput env dto baseUrl sid inputPath w1) as [outcome w2].
      exists outcome, w2, e2. tauto.
    - exists (Throw e), w1, []. rewrite app_nil_r. tauto. }
  destruct H2 as (outcome & w2 & e2 & -> & Hl2 & Hf2).
  destruct (cleanupInputs_effects env tmp uploadedFile w2) as (Hr & e3 & Hl3 & Hf3).
  unfold finally.
  destruct (cleanupInputs env tmp uploadedFile w2) as [[[]|e] w3]; [|discriminate Hr].
  simpl in Hl3, Hf3 |- *.
  exists (e2 ++ e3). split; [rewrite Hl3, Hl2, Hl1, app_assoc; reflexivity|].
  intros p Hp. destruct (Hf3 p Hp) as (Hp2 & Htmp & Hup).
  destruct (decide (truthy_string tmp = Some p)) as [E|Ntmp];
    [left; apply in_or_app; right; exact (Htmp E)|].
  destruct (decide (truthy_string (path <$> uploadedFile) = Some p)) as [E|Nup];
    [left; apply in_or_app; right; exact (Hup E)|].
  destruct (Hf2 p Hp2) as [H|[H|H]].
  - left. apply in_or_app. left. exact H.
  - right. left. exact H.
  - right. right. destruct (Hf1 p H) as [H'|H']; [tauto | contradiction].
Qed.

(** No step surfaces a failed deletion. *)

Lemma benign_ret {A : Type} (a : A) : Benign (ret a).
Proof. intros w p H. discriminate H. Qed.

Lemma benign_throw {A : Type} (e : Error) :
  (forall p, e <> FsError Unlink p) -> Benign (throw (A := A) e).
Proof. intros He w p [= H]. exact (He p H). Qed.

Lemma benign_bind {A B : Type} (m : M A) (k : A -> M B) :
  Benign m -> (forall a, Benign (k a)) -> Benign (bind m k).
Proof.
  intros Hm Hk w. unfold bind. specialize (Hm w).
  destruct (m w) as [[a|e] w1]; [apply Hk|].
  intros p [= H]. exact (Hm p (f_equal Throw H)).
Qed.

Lemma benign_tryIgnore (m : M unit) : Benign (tryIgnore m).
Proof. intros w p. unfold tryIgnore. destruct (m w). discriminate. Qed.

Lemma benign_spawnProcess (env : Env) (command : string) (args : list string) (writes : bool) :
  Benign (spawnProcess env command args writes).
Proof. intros w p H. discriminate H. Qed.

Lemma benign_uuid (env : Env) : Benign (uuid env).
Proof. intros w p H. discriminate H. Qed.

Lemma benign_mkdir (env : Env) (dir : string) : Benign (mkdir env dir).
Proof. intros w p. unfold mkdir. destruct (mkdir_ok _ _ _); discriminate. Qed.

Lemma benign_runFfmpegCommand (env : Env) (args : list string) :
  Benign (runFfmpegCommand env args).
Proof.
  apply benign_bind; [apply benign_spawnProcess|]. intros run.
  destruct (ending run) as [[[|c|c]|]|m];
    first [apply benign_ret | apply benign_throw; discriminate].
Qed.

Lemma benign_getVideoDuration (env : Env) (inputPath : string) :
  Benign (getVideoDuration env inputPath).
Proof.
  apply benign_bind; [apply benign_spawnProcess|]. intros run.
  destruct (ending run) as [[[|c|c]|]|m]; apply benign_ret.
Qed.

Lemma benign_extractFrame (env : Env) (inputPath : string) (percentage : Z) :
  Benign (extractFrame env inputPath percentage).
Proof.
  apply benign_bind; [apply benign_uuid|]. intros id.
  apply benign_bind; [apply benign_getVideoDuration|]. intros d.
  apply benign_bind; [apply benign_runFfmpegCommand|]. intros _. apply benign_ret.
Qed.

Lemma benign_analyzeFrameColors (env : Env) (framePath : string) (ct : ColorType) :
  Benign (analyzeFrameColors env framePath ct).
Proof.
  apply benign_bind; [|intros img; apply benign_ret].
  intros w p. unfold sharpRaw. destruct (sharp_raw _ _ _); discriminate.
Qed.

Lemma benign_sampleFrames (env : Env) (inputPath : string) (ct : ColorType)
    (percentages : list Z) :
  forall framePaths colorCounts w,
    notUnlinkError
      (fst (fst (sampleFrames env inputPath ct percentages framePaths colorCounts w))).
Proof.
  induction percentages as [|pct ps IH]; intros fps cc w; simpl.
  - intros p H. discriminate H.
  - pose proof (benign_extractFrame env inputPath pct w) as H1.
    destruct (extractFrame env inputPath pct w) as [[f|e] w1]; simpl in H1.
    2: { intros p [= H]. exact (H1 p (f_equal Throw H)). }
    pose proof (benign_analyzeFrameColors env f ct w1) as H2.
    destruct (analyzeFrameColors env f ct w1) as [[color|e] w2]; simpl in H2.
    2: { intros p [= H]. exact (H2 p (f_equal Throw H)). }
    apply IH.
Qed.

Lemma benign_findDominantChromaColor (env : Env) (inputPath : string) (ct : ColorType) :
  Benign (findDominantChromaColor env inputPath ct).
Proof.
  intros w. unfold findDominantChromaColor.
  pose proof (benign_sampleFrames env inputPath ct [5; 25; 50] [] [] w) as H.
  destruct (sampleFrames env inputPath ct [5; 25; 50] [] [] w) as [[sampled fps] w1].
  simpl in H. rewrite finally_ok by apply cleanupFrames_ok.
  destruct sampled as [counts|e]; intros p [= E]. exact (H p (f_equal Throw E)).
Qed.

Lemma benign_processChromaKey (env : Env) (options : Options.t) :
  Benign (processChromaKey env options).
Proof.
  unfold processChromaKey.
  apply benign_bind;
    [destruct (Options.sessionId options); [apply benign_ret | apply benign_uuid]|].
  intros id. apply benign_bind; [apply benign_mkdir|]. intros _.
  apply benign_bind; [intros w p H; discriminate H|]. intros _.
  apply benign_bind; [apply benign_runFfmpegCommand|]. intros _.
  apply benign_bind; [apply benign_runFfmpegCommand|]. intros _.
  apply benign_ret.
Qed.

Lemma benign_downloadVideo (env : Env) (url sessionId : string) :
  Benign (downloadVideo env url sessionId).
Proof.
  unfold downloadVideo. apply benign_bind; [apply benign_mkdir|]. intros _.
  destruct (url_extname env url) as [ext|]; [|apply benign_throw; discriminate].
  intros w p.
  match goal with |- context [bind ?m ?k w] => destruct (bind m k w) as [[q|e] w1] end;
    discriminate.
Qed.

Lemma benign_detectColor (env : Env) (dto : ProcessVideoDto) (inputPath : string) :
  Benign (detectColor env dto inputPath).
Proof.
  unfold detectColor. destruct (autoDetectColor dto) as [[|]|]; try apply benign_ret.
  apply benign_bind; [apply benign_findDominantChromaColor|]. intros d. apply benign_ret.
Qed.

Lemma benign_processInput (env : Env) (dto : ProcessVideoDto) (baseUrl : option string)
    (sessionId inputPath : string) :
  Benign (processInput env dto baseUrl sessionId inputPath).
Proof.
  apply benign_bind; [apply benign_detectColor|]. intros d.
  apply benign_bind; [apply benign_processChromaKey|]. intros res. apply benign_ret.
Qed.

Lemma benign_processVideo (env : Env) (dto : ProcessVideoDto)
    (uploadedFile : option UploadedFile) (baseUrl : option string) :
  Benign (processVideo env dto uploadedFile baseUrl).
Proof.
  apply benign_bind; [apply benign_uuid|]. intros sid w.
  assert (H1 : notUnlinkError (fst (fst (resolveInput env dto uploadedFile sid w)))).
  { unfold resolveInput. destruct uploadedFile as [f|]; [intros p H; discriminate H|].
    destruct (truthy_string (videoUrl dto)) as [url|]; [|intros p H; discriminate H].
    pose proof (benign_downloadVideo env url sid w) as H.
    destruct (downloadVideo env url sid w) as [[q|e] w1]; exact H. }
  destruct (resolveInput env dto uploadedFile sid w) as [[input tmp] w1]. simpl in H1.
  assert (H2 : notUnlinkError
                 (fst (match input with
                       | Ok inputPath => processInput env dto baseUrl sid inputPath w1
                       | Throw e => (Throw e, w1)
                       end))).
  { destruct input as [inputPath|e]; [apply benign_processInput|].
    intros p [= H]. exact (H1 p (f_equal Throw H)). }
  destruct (match input with
            | Ok inputPath => processInput env dto baseUrl sid inputPath w1
            | Throw e => (Throw e, w1)
            end) as [outcome w2].
  simpl in H2. rewrite finally_ok; [exact H2|].
  apply (cleanupInputs_effects env tmp uploadedFile w2).
Qed.

(** The outcome does not depend on what the deletions do. *)

Lemma agree_ret {A : Type} (a : A) : agree (ret a) (ret a).
Proof. intros w1 w2 H. simpl. tauto. Qed.

Lemma agree_throw {A : Type} (e : Error) : agree (throw (A := A) e) (throw e).
Proof. intros w1 w2 H. simpl. tauto. Qed.

Lemma agree_bind {A B : Type} (m1 m2 : M A) (k1 k2 : A -> M B) :
  agree m1 m2 -> (forall a, agree (k1 a) (k2 a)) -> agree (bind m1 k1) (bind m2 k2).
Proof.
  intros Hm Hk w1 w2 H. unfold bind. destruct (Hm w1 w2 H) as [Hr Hc].
  destruct (m1 w1) as [[a1|e1] w1'], (m2 w2) as [[a2|e2] w2']; simpl in Hr, Hc;
    try discriminate Hr.
  - injection Hr as <-. apply Hk, Hc.
  - injection Hr as <-. simpl. tauto.
Qed.

Lemma agree_unlink (env : Env) (answers : nat -> string -> bool) (p : string) :
  agree (tryIgnore (unlink (with_unlink env answers) p)) (tryIgnore (unlink env p)).
Proof.
  intros w1 w2 H. unfold tryIgnore, unlink.
  destruct (_ && _), (_ && _); simpl; rewrite H; tauto.
Qed.

Lemma agree_spawnProcess (env : Env) (answers : nat -> string -> bool)
    (command : string) (args : list string) (writes : bool) :
  agree (spawnProcess (with_unlink env answers) command args writes)
        (spawnProcess env command args writes).
Proof.
  intros w1 w2 H. unfold spawnProcess. simpl. rewrite H. split; [reflexivity|].
  destruct (ending _) as [[[|c|c]|]|m], writes, (last args); simpl; rewrite ?H; reflexivity.
Qed.

Lemma agree_uuid (env : Env) (answers : nat -> string -> bool) :
  agree (uuid (with_unlink env answers)) (uuid env).
Proof. intros w1 w2 H. unfold uuid. simpl. rewrite H. tauto. Qed.

Lemma agree_mkdir (env : Env) (answers : nat -> string -> bool) (dir : string) :
  agree (mkdir (with_unlink env answers) dir) (mkdir env dir).
Proof.
  intros w1 w2 H. unfold mkdir. simpl. rewrite H.
  destruct (mkdir_ok env (clock w2) dir); simpl; rewrite H; tauto.
Qed.

Lemma agree_runFfmpegCommand (env : Env) (answers : nat -> string -> bool)
    (args : list string) :
  agree (runFfmpegCommand (with_unlink env answers) args) (runFfmpegCommand env args).
Proof.
  apply agree_bind; [apply agree_spawnProcess|]. intros run.
  destruct (ending run) as [[[|c|c]|]|m]; first [apply agree_ret | apply agree_throw].
Qed.

Lemma agree_getVideoDuration (env : Env) (answers : nat -> string -> bool)
    (inputPath : string) :
  agree (getVideoDuration (with_unlink env answers) inputPath)
        (getVideoDuration env inputPath).
Proof.
  apply agree_bind; [apply agree_spawnProcess|]. intros run.
  destruct (ending run) as [[[|c|c]|]|m]; apply agree_ret.
Qed.

Lemma agree_extractFrame (env : Env) (answers : nat -> string -> bool)
    (inputPath : string) (percentage : Z) :
  agree (extractFrame (with_unlink env answers) inputPath percentage)
        (extractFrame env inputPath percentage).
Proof.
  apply agree_bind; [apply agree_uuid|]. intros id.
  apply agree_bind; [apply agree_getVideoDuration|]. intros d.
  apply agree_bind; [apply agree_runFfmpegCommand|]. intros _. apply agree_ret.
Qed.

Lemma agree_analyzeFrameColors (env : Env) (answers : nat -> string -> bool)
    (framePath : string) (ct : ColorType) :
  agree (analyzeFrameColors (with_unlink env answers) framePath ct)
        (analyzeFrameColors env framePath ct).
Proof.
  apply agree_bind; [|intros img; apply agree_ret].
  intros w1 w2 H. unfold sharpRaw. simpl. rewrite H.
  destruct (sharp_raw env (clock w2) framePath); simpl; rewrite H; tauto.
Qed.

Lemma agree_sampleFrames (env : Env) (answers : nat -> string -> bool)
    (inputPath : string) (ct : ColorType) (percentages : list Z) :
  forall framePaths colorCounts w1 w2,
    clock w1 = clock w2 ->
    let out1 := sampleFrames (with_unlink env answers) inputPath ct percentages
                  framePaths colorCounts w1 in
    let out2 := sampleFrames env inputPath ct percentages framePaths colorCounts w2 in
    fst out1 = fst out2 /\ clock (snd out1) = clock (snd out2).
Proof.
  induction percentages as [|pct ps IH]; intros fps cc w1 w2 H; cbv zeta; simpl.
  - tauto.
  - destruct (agree_extractFrame env answers inputPath pct w1 w2 H) as [Hr Hc].
    destruct (extractFrame (with_unlink env answers) inputPath pct w1) as [[f1|e1] w1'],
      (extractFrame env inputPath pct w2) as [[f2|e2] w2']; simpl in Hr, Hc;
      try discriminate Hr; injection Hr as <-; [|simpl; tauto].
    destruct (agree_analyzeFrameColors env answers f1 ct w1' w2' Hc) as [Hr2 Hc2].
    destruct (analyzeFrameColors (with_unlink env answers) f1 ct w1') as [[c1|e1] w1''],
      (analyzeFrameColors env f1 ct w2') as [[c2|e2] w2'']; simpl in Hr2, Hc2;
      try discriminate Hr2; injection Hr2 as <-; [|simpl; tauto].
    apply IH, Hc2.
Qed.

Lemma agree_cleanupFrames (env : Env) (answers : nat -> string -> bool)
    (framePaths : list string) :
  agree (cleanupFrames (with_unlink env answers) framePaths) (cleanupFrames env framePaths).
Proof.
  induction framePaths as [|f fps IH]; simpl; [apply agree_ret|].
  apply agree_bind; [apply agree_unlink|]. intros _. exact IH.
Qed.

Lemma agree_finally {A : Type} (res : Result A) (fin1 fin2 : M unit) :
  agree fin1 fin2 -> agree (finally res fin1) (finally res fin2).
Proof.
  intros Hfin w1 w2 H. unfold finally. destruct (Hfin w1 w2 H) as [Hr Hc].
  destruct (fin1 w1) as [[[]|e1] w1'], (fin2 w2) as [[[]|e2] w2']; simpl in Hr, Hc;
    try discriminate Hr; simpl; [tauto|]. injection Hr as <-. tauto.
Qed.

Lemma agree_findDominantChromaColor (env : Env) (answers : nat -> string -> bool)
    (inputPath : string) (ct : ColorType) :
  agree (findDominantChromaColor (with_unlink env answers) inputPath ct)
        (findDominantChromaColor env inputPath ct).
Proof.
  intros w1 w2 H. unfold findDominantChromaColor.
  destruct (agree_sampleFrames env answers inputPath ct [5; 25; 50] [] [] w1 w2 H) as [Hr Hc].
  destruct (sampleFrames (with_unlink env answers) inputPath ct [5; 25; 50] [] [] w1)
    as [[s1 fps1] w1'],
    (sampleFrames env inputPath ct [5; 25; 50] [] [] w2) as [[s2 fps2] w2'].
  simpl in Hr, Hc. injection Hr as <- <-.
  apply agree_finally; [apply agree_cleanupFrames | exact Hc].
Qed.

Lemma agree_processChromaKey (env : Env) (answers : nat -> string -> bool)
    (options : Options.t) :
  agree (processChromaKey (with_unlink env answers) options) (processChromaKey env options).
Proof.
  unfold processChromaKey.
  apply agree_bind;
    [destruct (Options.sessionId options); [apply agree_ret | apply agree_uuid]|].
  intros id. apply agree_bind; [apply agree_mkdir|]. intros _.
  apply agree_bind; [intros w1 w2 H; simpl; tauto|]. intros _.
  apply agree_bind; [apply agree_runFfmpegCommand|]. intros _.
  apply agree_bind; [apply agree_runFfmpegCommand|]. intros _.
  apply agree_ret.
Qed.

Lemma agree_downloadVideo (env : Env) (answers : nat -> string -> bool)
    (url sessionId : string) :
  agree (downloadVideo (with_unlink env answers) url sessionId)
        (downloadVideo env url sessionId).
Proof.
  unfold downloadVideo. apply agree_bind; [apply agree_mkdir|]. intros _. simpl.
  destruct (url_extname env url) as [ext|]; [|apply agree_throw].
  intros w1 w2 H. unfold bind, axios, writeFile, ret. simpl. rewrite H.
  destruct (axios_get env (clock w2) url); simpl; rewrite ?H; [tauto|].
  destruct (writeFile_ok env _ _); simpl; rewrite ?H; tauto.
Qed.

Lemma agree_detectColor (env : Env) (answers : nat -> string -> bool)
    (dto : ProcessVideoDto) (inputPath : string) :
  agree (detectColor (with_unlink env answers) dto inputPath) (detectColor env dto inputPath).
Proof.
  unfold detectColor. destruct (autoDetectColor dto) as [[|]|]; try apply agree_ret.
  apply agree_bind; [apply agree_findDominantChromaColor|]. intros d. apply agree_ret.
Qed.

Lemma agree_processInput (env : Env) (answers : nat -> string -> bool)
    (dto : ProcessVideoDto) (baseUrl : option string) (sessionId inputPath : string) :
  agree (processInput (with_unlink env answers) dto baseUrl sessionId inputPath)
        (processInput env dto baseUrl sessionId inputPath).
Proof.
  apply agree_bind; [apply agree_detectColor|]. intros d.
  apply agree_bind; [apply agree_processChromaKey|]. intros res. apply agree_ret.
Qed.

Lemma agree_cleanupInputs (env : Env) (answers : nat -> string -> bool)
    (tempInputPath : option string) (uploadedFile : option UploadedFile) :
  agree (cleanupInputs (with_unlink env answers) tempInputPath uploadedFile)
        (cleanupInputs env tempInputPath uploadedFile).
Proof.
  unfold cleanupInputs. apply agree_bind.
  - destruct (truthy_string tempInputPath); [apply agree_unlink | apply agree_ret].
  - intros _. destruct (truthy_string (path <$> uploadedFile));
      [apply agree_unlink | apply agree_ret].
Qed.

Lemma agree_processVideo (env : Env) (answers : nat -> string -> bool)
    (dto : ProcessVideoDto) (uploadedFile : option UploadedFile) (baseUrl : option string) :
  agree (processVideo (with_unlink env answers) dto uploadedFile baseUrl)
        (processVideo env dto uploadedFile baseUrl).
Proof.
  apply agree_bind; [apply agree_uuid|]. intros sid w1 w2 H.
  assert (H1 : fst (resolveInput (with_unlink env answers) dto uploadedFile sid w1)
               = fst (resolveInput env dto uploadedFile sid w2) /\
               clock (snd (resolveInput (with_unlink env answers) dto uploadedFile sid w1))
               = clock (snd (resolveInput env dto uploadedFile sid w2))).
  { unfold resolveInput. destruct uploadedFile as [f|]; [simpl; tauto|].
    destruct (truthy_string (videoUrl dto)) as [url|]; [|simpl; tauto].
    destruct (agree_downloadVideo env answers url sid w1 w2 H) as [Hr Hc].
    destruct (downloadVideo (with_unlink env answers) url sid w1) as [[q1|e1] w1'],
      (downloadVideo env url sid w2) as [[q2|e2] w2']; simpl in Hr, Hc |- *;
      try discriminate Hr; injection Hr as <-; tauto. }
  destruct (resolveInput (with_unlink env answers) dto uploadedFile sid w1)
    as [[input1 tmp1] w1'],
    (resolveInput env dto uploadedFile sid w2) as [[input2 tmp2] w2'].
  simpl in H1. destruct H1 as [[= <- <-] Hc].
  assert (H2 : fst (match input1 with
                    | Ok inputPath =>
                        processInput (with_unlink env answers) dto baseUrl sid inputPath w1'
                    | Throw e => (Throw e, w1')
                    end)
               = fst (match input1 with
                      | Ok inputPath => processInput env dto baseUrl sid inputPath w2'
                      | Throw e => (Throw e, w2')
                      end) /\
               clock (snd (match input1 with
                           | Ok inputPath =>
                               processInput (with_unlink env answers) dto baseUrl sid
                                 inputPath w1'
                           | Throw e => (Throw e, w1')
                           end))
               = clock (snd (match input1 with
                             | Ok inputPath => processInput env dto baseUrl sid inputPath w2'
                             | Throw e => (Throw e, w2')
                             end))).
  { destruct input1 as [inputPath|e]; [apply agree_processInput, Hc | simpl; tauto]. }
  destruct (match input1 with
            | Ok inputPath =>
                processInput (with_unlink env answers) dto baseUrl sid inputPath w1'
            | Throw e => (Throw e, w1')
            end) as [o1 w1''],
    (match input1 with
     | Ok inputPath => processInput env dto baseUrl sid inputPath w2'
     | Throw e => (Throw e, w2')
     end) as [o2 w2''].
  simpl in H2. destruct H2 as [<- Hc2].
  apply agree_finally; [apply agree_cleanupInputs | exact Hc2].
Qed.

(** ** The settings resolver *)

Lemma truthy_string_idem (o : option string) :
  truthy_string (truthy_string o) = truthy_string o.
Proof.
  destruct o as [s|]; simpl; [|reflexivity].
  destruct (Str.truthy s) eqn:E; simpl; [rewrite E|]; reflexivity.
Qed.

Lemma getSettings_lookup
    (ct : ColorType) (overrides : option (gmap string value)) (field : string) :
  getSettings ct overrides !! field =
    match overrides ≫= (fun o => o !! field) with
    | Some v => Some v
    | None => preset ct !! field
    end.
Proof.
  unfold getSettings, spread.
  replace (match ct with Green => GREEN_SCREEN_SETTINGS | Blue => BLUE_SCREEN_SETTINGS end)
    with (preset ct) by (destruct ct; reflexivity).
  destruct overrides as [o|]; simpl; [|reflexivity].
  rewrite lookup_union.
  destruct (o !! field) as [v|], (preset ct !! field); reflexivity.
Qed.

Lemma color_of_overrides (ct : ColorType) (o : gmap string value) (c : value) :
  o !! "color" = Some c -> prop (getSettings ct (Some o)) "color" = c.
Proof.
  intros H. unfold prop. rewrite getSettings_lookup. simpl. rewrite H. reflexivity.
Qed.

Lemma color_of_preset (ct : ColorType) (o : gmap string value) :
  o !! "color" = None ->
  prop (getSettings ct (Some o)) "color"
  = VString match ct with Green => "00FF00" | Blue => "0000FF" end.
Proof.
  intros H. unfold prop. rewrite getSettings_lookup. simpl. rewrite H.
  destruct ct; reflexivity.
Qed.

(** The colour both override sets carry: the detected colour, else the
    request's colour in upper case, else none. *)
Lemma overrides_color (dto : ProcessVideoDto) (detectedColor : option string) :
  let c :=
    match truthy_string detectedColor with
    | Some d => Some (VString d)
    | None =>
        match truthy_string (color dto) with
        | Some c => Some (VString (Str.toUpperCase c))
        | None => None
        end
    end in
  maskSettingsOf dto detectedColor !! "color" = c /\
  resultSettingsOf dto detectedColor !! "color" = c.
Proof.
  unfold maskSettingsOf, resultSettingsOf.
  destruct (truthy_string detectedColor), (truthy_string (color dto)),
    (mask_similarity dto), (mask_blend dto), (similarity dto), (blend dto);
    simpl; split; reflexivity.
Qed.


(** What a request logs. *)

Lemma settingsLogged_app (a b : list Event) :
  settingsLogged (a ++ b) = settingsLogged a ++ settingsLogged b.
Proof. apply omap_app. Qed.

Lemma quiet_ret {A : Type} (a : A) : Quiet (ret a).
Proof. intros w. exists []. simpl. rewrite app_nil_r. tauto. Qed.

Lemma quiet_throw {A : Type} (e : Error) : Quiet (throw (A := A) e).
Proof. intros w. exists []. simpl. rewrite app_nil_r. tauto. Qed.

Lemma quiet_bind {A B : Type} (m : M A) (k : A -> M B) :
  Quiet m -> (forall a, Quiet (k a)) -> Quiet (bind m k).
Proof.
  intros Hm Hk w. unfold bind. destruct (Hm w) as (e1 & Hl1 & Hq1).
  destruct (m w) as [[a|e] w1]; simpl in Hl1.
  - destruct (Hk a w1) as (e2 & Hl2 & Hq2). exists (e1 ++ e2).
    rewrite Hl2, Hl1, app_assoc, settingsLogged_app, Hq1, Hq2. tauto.
  - exists e1. tauto.
Qed.

Lemma quiet_tryIgnore (m : M unit) : Quiet m -> Quiet (tryIgnore m).
Proof. intros Hm w. unfold tryIgnore. specialize (Hm w). destruct (m w). exact Hm. Qed.

Lemma quiet_finally {A : Type} (res : Result A) (fin : M unit) :
  Quiet fin -> Quiet (finally res fin).
Proof.
  intros Hf w. unfold finally. specialize (Hf w). destruct (fin w) as [[[]|e] w1]; exact Hf.
Qed.

Lemma quiet_spawnProcess (env : Env) (command : string) (args : list string) (writes : bool) :
  Quiet (spawnProcess env command args writes).
Proof.
  intros w. exists [Spawned command args].
  split; [apply (spawnProcess_effects env command args writes w) | reflexivity].
Qed.

Lemma quiet_uuid (env : Env) : Quiet (uuid env).
Proof. intros w. exists []. simpl. rewrite app_nil_r. tauto. Qed.

Lemma quiet_mkdir (env : Env) (dir : string) : Quiet (mkdir env dir).
Proof.
  intros w. exists []. unfold mkdir. rewrite app_nil_r.
  destruct (mkdir_ok _ _ _); simpl; tauto.
Qed.

Lemma quiet_unlink (env : Env) (p : string) : Quiet (unlink env p).
Proof.
  intros w. unfold unlink. destruct (_ && _); simpl; eexists; split; reflexivity.
Qed.

Lemma quiet_runFfmpegCommand (env : Env) (args : list string) :
  Quiet (runFfmpegCommand env args).
Proof.
  apply quiet_bind; [apply quiet_spawnProcess|]. intros run.
  destruct (ending run) as [[[|c|c]|]|m]; first [apply quiet_ret | apply quiet_throw].
Qed.

Lemma quiet_getVideoDuration (env : Env) (inputPath : string) :
  Quiet (getVideoDuration env inputPath).
Proof.
  apply quiet_bind; [apply quiet_spawnProcess|]. intros run.
  destruct (ending run) as [[[|c|c]|]|m]; apply quiet_ret.
Qed.

Lemma quiet_extractFrame (env : Env) (inputPath : string) (percentage : Z) :
  Quiet (extractFrame env inputPath percentage).
Proof.
  apply quiet_bind; [apply quiet_uuid|]. intros id.
  apply quiet_bind; [apply quiet_getVideoDuration|]. intros d.
  apply quiet_bind; [apply quiet_runFfmpegCommand|]. intros _. apply quiet_ret.
Qed.

Lemma quiet_sampleFrames (env : Env) (inputPath : string) (ct : ColorType)
    (percentages : list Z) :
  forall framePaths colorCounts w,
    exists evs,
      log (snd (sampleFrames env inputPath ct percentages framePaths colorCounts w))
      = log w ++ evs /\
      settingsLogged evs = [].
Proof.
  induction percentages as [|pct ps IH]; intros fps cc w; simpl.
  - exists []. rewrite app_nil_r. tauto.
  - destruct (quiet_extractFrame env inputPath pct w) as (e1 & Hl1 & Hq1).
    destruct (extractFrame env inputPath pct w) as [[f|e] w1]; simpl in Hl1 |- *;
      [|exists e1; tauto].
    destruct (analyzeFrameColors_effects env f ct w1) as (Hl2 & _).
    destruct (analyzeFrameColors env f ct w1) as [[color|e] w2]; simpl in Hl2 |- *;
      [|exists e1; rewrite Hl2; tauto].
    match goal with
    | |- context [sampleFrames env inputPath ct ps ?fps' ?cc' w2] =>
        destruct (IH fps' cc' w2) as (e3 & Hl3 & Hq3)
    end.
    exists (e1 ++ e3). rewrite Hl3, Hl2, Hl1, app_assoc, settingsLogged_app, Hq1, Hq3. tauto.
Qed.

Lemma quiet_cleanupFrames (env : Env) (framePaths : list string) :
  Quiet (cleanupFrames env framePaths).
Proof.
  induction framePaths as [|f fps IH]; simpl; [apply quiet_ret|].
  apply quiet_bind; [apply quiet_tryIgnore, quiet_unlink | intros _; exact IH].
Qed.

Lemma quiet_findDominantChromaColor (env : Env) (inputPath : string) (ct : ColorType) :
  Quiet (findDominantChromaColor env inputPath ct).
Proof.
  intros w. unfold findDominantChromaColor.
  destruct (quiet_sampleFrames env inputPath ct [5; 25; 50] [] [] w) as (e1 & Hl1 & Hq1).
  destruct (sampleFrames env inputPath ct [5; 25; 50] [] [] w) as [[sampled fps] w1].
  simpl in Hl1.
  match goal with
  | |- context [finally ?o (cleanupFrames env fps) w1] =>
      destruct (quiet_finally o _ (quiet_cleanupFrames env fps) w1) as (e2 & Hl2 & Hq2)
  end.
  exists (e1 ++ e2). rewrite Hl2, Hl1, app_assoc, settingsLogged_app, Hq1, Hq2. tauto.
Qed.

Lemma quiet_detectColor (env : Env) (dto : ProcessVideoDto) (inputPath : string) :
  Quiet (detectColor env dto inputPath).
Proof.
  unfold detectColor. destruct (autoDetectColor dto) as [[|]|]; try apply quiet_ret.
  apply quiet_bind; [apply quiet_findDominantChromaColor|]. intros d. apply quiet_ret.
Qed.

Lemma quiet_cleanupInputs (env : Env) (tempInputPath : option string)
    (uploadedFile : option UploadedFile) :
  Quiet (cleanupInputs env tempInputPath uploadedFile).
Proof.
  unfold cleanupInputs. apply quiet_bind.
  - destruct (truthy_string tempInputPath);
      [apply quiet_tryIgnore, quiet_unlink | apply quiet_ret].
  - intros _. destruct (truthy_string (path <$> uploadedFile));
      [apply quiet_tryIgnore, quiet_unlink | apply quiet_ret].
Qed.

(** [processChromaKey] logs the two settings it resolved, once, as soon
    as the output directory exists. *)
Lemma processChromaKey_logs (env : Env) (options : Options.t) (id : string) (w : World) :
  Options.sessionId options = Some id ->
  exists evs,
    log (snd (processChromaKey env options w)) = log w ++ evs /\
    settingsLogged evs
    = if mkdir_ok env (clock w) (Options.outputDir options)
      then [(getSettings (Options.colorType options) (Options.maskSettings options),
             getSettings (Options.colorType options) (Options.resultSettings options))]
      else [].
Proof.
  intros Hid. unfold processChromaKey. rewrite Hid.
  set (rs := getSettings _ (Options.resultSettings options)).
  set (ms := getSettings _ (Options.maskSettings options)).
  unfold bind at 1. cbn [ret]. unfold bind at 1, mkdir.
  destruct (mkdir_ok env (clock w) (Options.outputDir options)).
  2: { exists []. simpl. rewrite app_nil_r. tauto. }
  unfold bind at 1.
  match goal with
  | |- context [bind (runFfmpegCommand env ?a) ?k] =>
      assert (Hq : Quiet (bind (runFfmpegCommand env a) k))
  end.
  { apply quiet_bind; [apply quiet_runFfmpegCommand|]. intros _.
    apply quiet_bind; [apply quiet_runFfmpegCommand|]. intros _. apply quiet_ret. }
  destruct (Hq (record (SettingsLogged ms rs) (tick w))) as (e & Hl & Hqe).
  exists (SettingsLogged ms rs :: e). rewrite Hl. simpl. rewrite Hqe, <- app_assoc. tauto.
Qed.

Lemma processInput_logs (env : Env) (dto : ProcessVideoDto) (baseUrl : option string)
    (sessionId inputPath : string) (w : World) :
  exists evs,
    log (snd (processInput env dto baseUrl sessionId inputPath w)) = log w ++ evs /\
    settingsLogged evs
    = match detectColor env dto inputPath w with
      | (Ok detectedColor, w2) =>
          if mkdir_ok env (clock w2) (outputDir env)
          then [(maskChromaSettings dto detectedColor,
                 resultChromaSettings dto detectedColor)]
          else []
      | (Throw _, _) => []
      end.
Proof.
  unfold processInput, bind.
  destruct (quiet_detectColor env dto inputPath w) as (e2 & Hl2 & Hq2).
  destruct (detectColor env dto inputPath w) as [[detected|e] w2]; simpl in Hl2.
  2: { exists e2. tauto. }
  match goal with
  | |- context [processChromaKey env ?o w2] =>
      destruct (processChromaKey_logs env o sessionId w2 eq_refl) as (e3 & Hl3 & Hq3);
      destruct (processChromaKey env o w2) as [[res|e] w3]
  end; simpl in Hl3, Hq3 |- *.
  all: exists (e2 ++ e3); rewrite Hl3, Hl2, app_assoc, settingsLogged_app, Hq2, Hq3.
  all: split; reflexivity.
Qed.

Lemma processVideo_settings (env : Env) (dto : ProcessVideoDto)
    (uploadedFile : option UploadedFile) (baseUrl : option string) (w : World) :
  requestSettings env dto uploadedFile baseUrl w
  = match requestDetection env dto uploadedFile w with
    | Some (detectedColor, w2) =>
        if mkdir_ok env (clock w2) (outputDir env)
        then [(maskChromaSettings dto detectedColor, resultChromaSettings dto detectedColor)]
        else []
    | None => []
    end.
Proof.
  unfold requestSettings, requestDetection, processVideo, bind, uuid. cbn [fst snd].
  set (sid := uuidv4 env (clock w)).
  pose proof (resolveInput_effects env dto uploadedFile sid (tick w)) as [Hl1 _].
  destruct (resolveInput env dto uploadedFile sid (tick w)) as [[input tmp] w1].
  simpl in Hl1.
  assert (Hfin : forall (outcome : Result Response.t) w2 evs,
             log w2 = log w ++ evs ->
             settingsLogged
               (drop (length (log w))
                  (log (snd (finally outcome (cleanupInputs env tmp uploadedFile) w2))))
             = settingsLogged evs).
  { intros outcome w2 evs Hl.
    destruct (quiet_finally outcome _ (quiet_cleanupInputs env tmp uploadedFile) w2)
      as (e3 & Hl3 & Hq3).
    rewrite Hl3, Hl, <- app_assoc, drop_app_length, settingsLogged_app, Hq3.
    apply app_nil_r. }
  destruct input as [inputPath|e].
  - destruct (processInput_logs env dto baseUrl sid inputPath w1) as (e2 & Hl2 & Hq2).
    destruct (processInput env dto baseUrl sid inputPath w1) as [outcome w2].
    simpl in Hl2. rewrite (Hfin outcome w2 e2) by (rewrite Hl2, Hl1; reflexivity).
    rewrite Hq2. destruct (detectColor env dto inputPath w1) as [[det|e] w2']; reflexivity.
  - rewrite (Hfin (Throw e) w1 []); [reflexivity | rewrite app_nil_r; exact Hl1].
Qed.

(** Detection reads only the input, the colour type and the request for
    detection. *)
Lemma requestDetection_reads (env : Env) (dto1 dto2 : ProcessVideoDto)
    (uploadedFile : option UploadedFile) (w : World) :
  videoUrl dto1 = videoUrl dto2 ->
  colorType dto1 = colorType dto2 ->
  autoDetectColor dto1 = autoDetectColor dto2 ->
  requestDetection env dto1 uploadedFile w = requestDetection env dto2 uploadedFile w.
Proof.
  intros Hu Hc Ha. unfold requestDetection, resolveInput, detectColor.
  rewrite Hu, Hc, Ha. reflexivity.
Qed.
(** C2. For either colour type and any override set, every field of the
    resolved settings is the override's value when the overrides have
    the field and the preset's value when they do not (and the preset
    itself when no override set is passed): resolved = preset (+)
    overrides, field by field, in particular for color, similarity and
    blend, which every preset defines. *)
Theorem getSettings_merges_fieldwise
    (ct : ColorType) (overrides : option (gmap string value)) (field : string) :
  getSettings ct overrides !! field =
    match overrides ≫= (fun o => o !! field) with
    | Some v => Some v
    | None => preset ct !! field
    end /\
  dom (preset ct) = {["color"; "similarity"; "blend"]} /\
  preset Green !! "color" = Some (VString "00FF00") /\
  preset Blue !! "color" = Some (VString "0000FF").
Proof.
  split; [apply getSettings_lookup|].
  split; [|split; reflexivity].
  destruct ct; unfold preset, GREEN_SCREEN_SETTINGS, BLUE_SCREEN_SETTINGS;
    rewrite !dom_insert_L, dom_empty_L; set_solver.
Qed.




(** * Further properties *)

(** ** Settings of validated requests *)

Lemma preset_dom (ct : ColorType) : dom (preset ct) = {["color"; "similarity"; "blend"]}.
Proof.
  destruct ct; unfold preset, GREEN_SCREEN_SETTINGS, BLUE_SCREEN_SETTINGS;
    rewrite !dom_insert_L, dom_empty_L; set_solver.
Qed.

Lemma getSettings_union (ct : ColorType) (o : gmap string value) :
  getSettings ct (Some o) = o ∪ preset ct.
Proof. destruct ct; reflexivity. Qed.

(** X1. The resolver never drops a property of the overrides and always
    defines the three settings; resolving again changes nothing. *)
Theorem getSettings_keeps_keys_and_is_idempotent
    (ct : ColorType) (overrides : gmap string value) :
  dom (getSettings ct (Some overrides))
  = dom overrides ∪ {["color"; "similarity"; "blend"]} /\
  getSettings ct (Some (getSettings ct (Some overrides))) = getSettings ct (Some overrides).
Proof.
  rewrite !getSettings_union. split.
  - rewrite dom_union_L, preset_dom. reflexivity.
  - apply map_eq. intros k. rewrite !lookup_union.
    destruct (overrides !! k), (preset ct !! k); reflexivity.
Qed.

Lemma overrides_numbers (dto : ProcessVideoDto) (detectedColor : option string) :
  maskSettingsOf dto detectedColor !! "similarity" = VNumber <$> mask_similarity dto /\
  maskSettingsOf dto detectedColor !! "blend" = VNumber <$> mask_blend dto /\
  resultSettingsOf dto detectedColor !! "similarity" = VNumber <$> similarity dto /\
  resultSettingsOf dto detectedColor !! "blend" = VNumber <$> blend dto.
Proof.
  unfold maskSettingsOf, resultSettingsOf.
  destruct (truthy_string detectedColor), (truthy_string (color dto)),
    (mask_similarity dto), (mask_blend dto), (similarity dto), (blend dto);
    simpl; repeat split; reflexivity.
Qed.

Lemma resolved_number (ct : ColorType) (o : gmap string value) (field : string)
    (x : option Float64.t) (lo hi : Float64.t) :
  o !! field = VNumber <$> x ->
  Validation.optionalInRange lo hi x = true ->
  (forall v, preset ct !! field = Some v -> numberBetween lo hi v = true) ->
  is_Some (preset ct !! field) ->
  numberBetween lo hi (prop (getSettings ct (Some o)) field) = true.
Proof.
  intros Ho Hx Hp [v Hv]. unfold prop. rewrite getSettings_lookup. simpl. rewrite Ho.
  destruct x as [x|]; simpl.
  - exact Hx.
  - rewrite Hv. simpl. apply Hp, Hv.
Qed.

Lemma settings_in_range (dto : ProcessVideoDto) (det : option string) :
  Validation.settingsFieldsValid dto = true ->
  let low := Float64.of_decimal false 1 (-2) in
  let zero := Float64.of_Z 0 in
  let one := Float64.of_Z 1 in
  numberBetween low one (prop (maskChromaSettings dto det) "similarity") = true /\
  numberBetween zero one (prop (maskChromaSettings dto det) "blend") = true /\
  numberBetween low one (prop (resultChromaSettings dto det) "similarity") = true /\
  numberBetween zero one (prop (resultChromaSettings dto det) "blend") = true.
Proof.
  unfold Validation.settingsFieldsValid. rewrite !andb_true_iff.
  intros ((((_ & Hs) & Hb) & Hms) & Hmb). cbv zeta.
  destruct (overrides_numbers dto det) as (Ems & Emb & Es & Eb).
  unfold maskChromaSettings, resultChromaSettings.
  repeat split;
    (eapply resolved_number;
     [eassumption | assumption
      | intros v Hv; destruct (colorType dto); vm_compute in Hv; injection Hv as <-;
        vm_compute; reflexivity
      | destruct (colorType dto); vm_compute; eauto]).
Qed.

(** Whatever holds of the settings resolved from every detection outcome
    holds of the settings a request resolves. *)
Lemma requestSettings_forall (env : Env) (dto : ProcessVideoDto)
    (uploadedFile : option UploadedFile) (baseUrl : option string) (w : World)
    (Q : gmap string value * gmap string value -> Prop) :
  (forall det w2,
     requestDetection env dto uploadedFile w = Some (det, w2) ->
     Q (maskChromaSettings dto det, resultChromaSettings dto det)) ->
  Forall Q (requestSettings env dto uploadedFile baseUrl w).
Proof.
  intros H. rewrite processVideo_settings.
  destruct (requestDetection env dto uploadedFile w) as [[det w2]|]; [|constructor].
  destruct (mkdir_ok env (clock w2) (outputDir env)); constructor; [|constructor].
  apply (H det w2 eq_refl).
Qed.



(** ** Colours of validated requests *)

Lemma toUpperCase_length (s : string) :
  String.length (Str.toUpperCase s) = String.length s.
Proof. induction s as [|c s IH]; simpl; [reflexivity | rewrite IH; reflexivity]. Qed.

Lemma upper_hex_digit (c : ascii) :
  Validation.isHexDigit c = true -> exists v, hexDigitValue (Str.upper_ascii c) = Some v.
Proof.
  destruct c as [[] [] [] [] [] [] [] []]; vm_compute; intros H;
    first [discriminate H | eexists; reflexivity].
Qed.

Lemma toUpperCase_upper_hex (s : string) :
  Validation.allHexDigits s = true -> isUpperHex (Str.toUpperCase s) = true.
Proof.
  induction s as [|c s IH]; simpl; [reflexivity|].
  intros H. apply andb_true_iff in H as [Hc Hs].
  destruct (upper_hex_digit c Hc) as [v ->]. apply IH, Hs.
Qed.

Lemma validated_color_upper (s : string) :
  Validation.matchesHexColor s = true -> isColor6 (VString (Str.toUpperCase s)) = true.
Proof.
  unfold Validation.matchesHexColor, isColor6. intros H.
  apply andb_true_iff in H as [Hl Hd].
  rewrite toUpperCase_length, Hl. simpl. apply toUpperCase_upper_hex, Hd.
Qed.

Lemma hexChannels_color6 (s : string) (c : Z * Z * Z) :
  hexChannels s = Some c -> isColor6 (VString s) = true /\ Str.truthy s = true.
Proof.
  unfold hexChannels, isColor6, hexByte.
  destruct s as [|a1 [|a2 [|a3 [|a4 [|a5 [|a6 [|]]]]]]]; try discriminate.
  simpl.
  destruct (hexDigitValue a1), (hexDigitValue a2), (hexDigitValue a3),
    (hexDigitValue a4), (hexDigitValue a5), (hexDigitValue a6); try discriminate.
  tauto.
Qed.

Lemma findDominantChromaColor_quantizedHex (env : Env) (inputPath : string)
    (ct : ColorType) (w : World) (hex : string) :
  decodesRGB env ->
  fst (findDominantChromaColor env inputPath ct w) = Ok (Some hex) ->
  quantizedHex hex.
Proof.
  intros Hdec Hres.
  apply findDominantChromaColor_from_tally in Hres as (counts & fps & w1 & Hs & Hbest).
  symmetry in Hbest. apply pickBest_in in Hbest as [Hbest|Hin]; [discriminate|].
  revert hex Hin.
  refine (sampleFrames_keys env inputPath ct quantizedHex _
            [5; 25; 50] [] [] w counts fps w1 _ Hs).
  - intros n p img col Himg Hcol.
    exact (dominantColor_quantizedHex img col (Hdec _ _ _ Himg) Hcol).
  - intros h [].
Qed.

Lemma requestDetection_quantizedHex (env : Env) (dto : ProcessVideoDto)
    (uploadedFile : option UploadedFile) (w w2 : World) (d : string) :
  decodesRGB env ->
  requestDetection env dto uploadedFile w = Some (Some d, w2) ->
  quantizedHex d.
Proof.
  intros Hdec. unfold requestDetection.
  destruct (resolveInput env dto uploadedFile (uuidv4 env (clock w)) (tick w))
    as [[[inputPath|e] tmp] w1]; [|discriminate].
  unfold detectColor. destruct (autoDetectColor dto) as [[|]|]; try discriminate.
  unfold bind.
  destruct (findDominantChromaColor env inputPath (colorType dto) w1) as [[det|e] w3] eqn:E;
    [|discriminate].
  simpl. intros [= Hd _].
  destruct det as [d'|]; [|discriminate]. simpl in Hd.
  destruct (Str.truthy d'); [|discriminate]. injection Hd as ->.
  apply (findDominantChromaColor_quantizedHex env inputPath (colorType dto) w1).
  - exact Hdec.
  - rewrite E. reflexivity.
Qed.

Lemma resolved_colors (dto : ProcessVideoDto) (det : option string) :
  Validation.optionalHexColor (color dto) = true ->
  (forall d, det = Some d -> quantizedHex d) ->
  isColor6 (prop (maskChromaSettings dto det) "color") = true /\
  isColor6 (prop (resultChromaSettings dto det) "color") = true.
Proof.
  intros Hcolor Hdet.
  destruct (overrides_color dto det) as [Hm Hr]. simpl in Hm, Hr.
  unfold maskChromaSettings, resultChromaSettings.
  assert (Hc : forall v,
             match truthy_string det with
             | Some d => Some (VString d)
             | None =>
                 match truthy_string (color dto) with
                 | Some c => Some (VString (Str.toUpperCase c))
                 | None => None
                 end
             end = Some v -> isColor6 v = true).
  { intros v. destruct det as [d|]; simpl.
    - destruct (Hdet d eq_refl) as (x & y & z & Hch & _).
      destruct (hexChannels_color6 d _ Hch) as [H6 Ht]. rewrite Ht.
      intros [= <-]. exact H6.
    - destruct (color dto) as [c|]; simpl; [|discriminate].
      destruct (Str.truthy c); [|discriminate].
      intros [= <-]. apply validated_color_upper, Hcolor. }
  destruct (match truthy_string det with
            | Some d => Some (VString d)
            | None =>
                match truthy_string (color dto) with
                | Some c => Some (VString (Str.toUpperCase c))
                | None => None
                end
            end) as [v|].
  - rewrite (color_of_overrides _ _ v Hm), (color_of_overrides _ _ v Hr).
    split; apply Hc; reflexivity.
  - rewrite (color_of_preset _ _ Hm), (color_of_preset _ _ Hr).
    destruct (colorType dto); split; reflexivity.
Qed.



(** ** More on [rgbToHex] *)

Lemma clamp255_id (x : Z) : 0 <= x <= 255 -> clamp255 x = x.
Proof. unfold clamp255. lia. Qed.

Lemma rgbToHex_reads_back (v : Z * Z * Z) :
  inByteRange v -> hexChannels (rgbToHex (rgbOf v)) = Some v.
Proof.
  destruct v as [[x y] z]. intros (Hx & Hy & Hz).
  change (rgbOf (x, y, z)) with {| r := Chan.Num x; g := Chan.Num y; b := Chan.Num z |}.
  destruct (rgbToHex_encodes x y z) as (_ & _ & ->).
  rewrite !clamp255_id by assumption. reflexivity.
Qed.

(** X4. Distinct colours with channels between 0 and 255 have distinct hex
    strings, so the tally of hex votes never merges two colours. *)
Theorem rgbToHex_injective_on_bytes (u v : Z * Z * Z) :
  inByteRange u -> inByteRange v ->
  rgbToHex (rgbOf u) = rgbToHex (rgbOf v) -> u = v.
Proof.
  intros Hu Hv Heq.
  pose proof (rgbToHex_reads_back u Hu) as Eu.
  rewrite Heq, (rgbToHex_reads_back v Hv) in Eu. injection Eu as <-. reflexivity.
Qed.

Lemma rgbToHex_injective_on_bytes_witness :
  inByteRange (96, 248, 8) /\ (96, 248, 8) = (96, 248, 8).
Proof.
  assert (H : inByteRange (96, 248, 8)) by (simpl; lia).
  split; [exact H|].
  exact (rgbToHex_injective_on_bytes (96, 248, 8) (96, 248, 8) H H eq_refl).
Defined.

Lemma append_length (s1 s2 : string) :
  String.length (s1 +:+ s2) = (String.length s1 + String.length s2)%nat.
Proof. induction s1 as [|c s1 IH]; simpl; [reflexivity | rewrite IH; reflexivity]. Qed.

Lemma toHex_length (c : Chan.t) :
  String.length (toHex c) = match c with Chan.Num _ => 2%nat | Chan.NaN => 3%nat end.
Proof.
  destruct c as [z|]; [|reflexivity].
  destruct (toHex_two_digits z) as (hi & lo & H & _).
  rewrite <- (toUpperCase_length (toHex (Chan.Num z))), H. reflexivity.
Qed.


(** ** The histogram of a frame *)

Lemma totalCount_set (m : list (string * Bucket)) (k : string) (bucket : Bucket) :
  totalCount (JsMap.set m k bucket)
  = totalCount m
    - match JsMap.get m k with Some old => count old | None => 0 end
    + count bucket.
Proof.
  induction m as [|[k0 b0] m IH]; simpl; [lia|].
  destruct (String.eqb k0 k); simpl; [lia | rewrite IH; lia].
Qed.

Lemma totalCount_addVote (cm : list (string * Bucket)) (v : Z * Z * Z) :
  totalCount (addVote cm v) = totalCount cm + 1.
Proof.
  unfold addVote. destruct (JsMap.get cm (keyOf v)) as [old|] eqn:E;
    rewrite totalCount_set, E; simpl; lia.
Qed.

Lemma totalCount_fold (vs : list (Z * Z * Z)) (cm : list (string * Bucket)) :
  totalCount (fold_left addVote vs cm) = totalCount cm + Z.of_nat (length vs).
Proof.
  revert cm. induction vs as [|v vs IH]; intros cm; simpl; [lia|].
  rewrite IH, totalCount_addVote. lia.
Qed.

Lemma colorMapOf_fold (img : RawImage) :
  isRGBorRGBA img = true -> colorMapOf img = fold_left addVote (votes img) [].
Proof.
  intros Hwf. unfold colorMapOf.
  rewrite fold_votePixel_pixels, fold_voteZ_votes by exact Hwf. reflexivity.
Qed.

(** X6. On an RGB or RGBA buffer the colour map is the histogram of the
    votes: one bucket per quantized colour that was voted for, holding
    that colour and the number of pixels that voted for it, and the
    counts add up to the number of pixels that were not excluded. *)
Theorem colorMap_is_histogram (img : RawImage) :
  isRGBorRGBA img = true ->
  let colorMap := colorMapOf img in
  NoDup (map fst colorMap) /\
  (forall key bucket, In (key, bucket) colorMap ->
     exists v, In v (votes img) /\ key = keyOf v /\ rgb bucket = rgbOf v /\
               count bucket = occurrences v (votes img)) /\
  (forall v, In v (votes img) -> exists bucket, In (keyOf v, bucket) colorMap) /\
  totalCount colorMap = Z.of_nat (length (votes img)).
Proof.
  intros Hwf. cbv zeta. rewrite (colorMapOf_fold img Hwf).
  pose proof (votes_in_byte_range img) as Hrange.
  set (vs := votes img) in *.
  destruct (tallied_fold vs [] [] tallied_nil) as (Hnd & Hnone & Hsome).
  simpl in Hnd, Hnone, Hsome.
  split; [exact Hnd|]. split; [|split].
  - intros key bucket Hin. apply (In_get _ _ _ Hnd) in Hin.
    destruct (Hsome _ _ Hin) as (Hc & v & Hv & Hk & Hrgb).
    exists v. repeat split; try assumption; [symmetry; exact Hk|].
    rewrite Hc, <- Hk. apply keyCount_occurrences; [apply Hrange, Hv | exact Hrange].
  - intros v Hv. destruct (JsMap.get (fold_left addVote vs []) (keyOf v)) as [bucket|] eqn:E.
    + exists bucket. apply get_In, E.
    + pose proof (keyCount_In (keyOf v) vs v Hv eq_refl) as Hpos.
      rewrite (Hnone _ E) in Hpos. lia.
  - rewrite totalCount_fold. reflexivity.
Qed.

Lemma colorMap_is_histogram_witness :
  isRGBorRGBA sample_image = true /\
  totalCount (colorMapOf sample_image) = 2 /\
  totalCount (colorMapOf sample_image) = Z.of_nat (length (votes sample_image)).
Proof.
  split; [reflexivity|]. split; [reflexivity|].
  exact (proj2 (proj2 (proj2 (colorMap_is_histogram sample_image eq_refl)))).
Defined.

(** ** Ties in the per-frame detector *)

Section FirstMaximum.
Context {A : Type} (weight : A -> Z).

(** The stable sort puts first the earliest of the heaviest elements. *)
Lemma sort_first_maximum (l : list A) :
  match sort (fun a b => weight b - weight a) l with
  | [] => l = []
  | h :: _ =>
      exists before after,
        l = before ++ h :: after /\
        (forall y, In y before -> weight y < weight h) /\
        (forall y, In y after -> weight y <= weight h)
  end.
Proof.
  induction l as [|x l IH]; simpl; [reflexivity|].
  destruct (sort (fun a b => weight b - weight a) l) as [|h0 t0]; simpl.
  - subst l. exists [], []. repeat split; intros y [].
  - destruct IH as (b0 & a0 & -> & Hb & Ha).
    destruct (Z.leb_spec (weight h0 - weight x) 0) as [Hle|Hgt].
    + exists [], (b0 ++ h0 :: a0). repeat split; [intros y []|].
      intros y Hy. apply in_app_or in Hy as [Hy|[<-|Hy]];
        [specialize (Hb y Hy) | | specialize (Ha y Hy)]; lia.
    + exists (x :: b0), a0. repeat split; [|exact Ha].
      intros y [<-|Hy]; [lia | exact (Hb y Hy)].
Qed.
End FirstMaximum.

Lemma firstSeen_step_extends (l seen : list string) :
  exists rest,
    fold_left (fun seen hex => if bool_decide (hex ∈ seen) then seen else seen ++ [hex])
              l seen
    = seen ++ rest.
Proof.
  revert seen. induction l as [|x l IH]; intros seen; simpl.
  - exists []. rewrite app_nil_r. reflexivity.
  - destruct (bool_decide (x ∈ seen)); [apply IH|].
    destruct (IH (seen ++ [x])) as [rest ->]. exists (x :: rest).
    rewrite <- app_assoc. reflexivity.
Qed.

Lemma firstSeen_elements (l : list string) (x : string) :
  In x (firstSeen l) <-> In x l.
Proof.
  unfold firstSeen.
  assert (H : forall seen,
             In x (fold_left (fun seen hex =>
                                if bool_decide (hex ∈ seen) then seen else seen ++ [hex])
                             l seen)
             <-> In x seen \/ In x l).
  { induction l as [|y l IH]; intros seen; simpl; [tauto|].
    rewrite IH. destruct (bool_decide_reflect (y ∈ seen)) as [Hy|Hy].
    - apply list_elem_of_In in Hy. split; [tauto|].
      intros [H|[<-|H]]; tauto.
    - rewrite in_app_iff. simpl. tauto. }
  rewrite H. simpl. tauto.
Qed.

Lemma firstSeen_prefix (l1 l2 : list string) (x : string) :
  ~ In x l1 -> exists rest, firstSeen (l1 ++ x :: l2) = firstSeen l1 ++ x :: rest.
Proof.
  intros Hx. unfold firstSeen. rewrite fold_left_app. simpl.
  fold (firstSeen l1).
  rewrite bool_decide_eq_false_2
    by (intros H; apply list_elem_of_In in H;
        exact (Hx (proj1 (firstSeen_elements l1 x) H))).
  destruct (firstSeen_step_extends l2 (firstSeen l1 ++ [x])) as [rest ->].
  exists rest. rewrite <- app_assoc. reflexivity.
Qed.

Lemma colorMap_keys (vs : list (Z * Z * Z)) :
  map fst (fold_left addVote vs []) = firstSeen (map keyOf vs).
Proof.
  unfold firstSeen.
  assert (H : forall (cm : list (string * Bucket)) (seen : list string),
             map fst cm = seen ->
             map fst (fold_left addVote vs cm)
             = fold_left (fun seen hex => if bool_decide (hex ∈ seen) then seen else seen ++ [hex])
                         (map keyOf vs) seen); [|apply H; reflexivity].
  induction vs as [|v vs IH]; intros cm seen Hm; simpl; [exact Hm|].
  apply IH. unfold addVote.
  destruct (JsMap.get cm (keyOf v)) as [old|] eqn:E; rewrite keys_set, E, Hm.
  - apply get_In in E. rewrite bool_decide_eq_true_2; [reflexivity|].
    rewrite <- Hm. apply list_elem_of_In, in_map_iff. exists (keyOf v, old). tauto.
  - apply get_None_keys in E. rewrite bool_decide_eq_false_2; [reflexivity|].
    rewrite <- Hm. intros Hin. apply E, list_elem_of_In, Hin.
Qed.

Lemma NoDup_split_unique {A : Type} (a a' b b' : list A) (x : A) :
  NoDup (a ++ x :: b) -> a ++ x :: b = a' ++ x :: b' -> a = a'.
Proof.
  revert a'. induction a as [|y a IH]; intros a' Hnd Heq.
  - destruct a' as [|y' a']; [reflexivity|]. simpl in Heq. injection Heq as <- Heq.
    apply NoDup_cons in Hnd as [Hx _]. exfalso. apply Hx.
    rewrite Heq. apply list_elem_of_In, in_elt.
  - simpl in Hnd. apply NoDup_cons in Hnd as [Hy Hnd].
    destruct a' as [|y' a']; simpl in Heq; injection Heq as -> Heq.
    + exfalso. apply Hy. apply list_elem_of_In, in_elt.
    + f_equal. apply IH; assumption.
Qed.

Lemma first_occurrence (vs : list (Z * Z * Z)) (v : Z * Z * Z) :
  In v vs -> exists pre post, vs = pre ++ v :: post /\ ~ In v pre.
Proof.
  induction vs as [|x vs IH]; [intros []|].
  destruct (same_color x v) eqn:E.
  - apply same_color_eq in E as ->. intros _. exists [], vs. split; [reflexivity | intros []].
  - intros [->|Hin]; [rewrite (proj2 (same_color_eq v v) eq_refl) in E; discriminate|].
    destruct (IH Hin) as (pre & post & -> & Hpre).
    exists (x :: pre), post. split; [reflexivity|].
    intros [->|H]; [|exact (Hpre H)].
    rewrite (proj2 (same_color_eq v v) eq_refl) in E. discriminate.
Qed.

(** X7. Ties in the per-frame detector go to the colour seen first: every
    colour that votes before the first pixel of the returned colour has
    strictly fewer votes, and no colour has more. *)
Theorem dominantColor_first_seen_wins (img : RawImage) (c : RGB) :
  isRGBorRGBA img = true ->
  dominantColor img = Some c ->
  exists v pre post,
    c = rgbOf v /\
    votes img = pre ++ v :: post /\
    (forall u, In u pre -> occurrences u (votes img) < occurrences v (votes img)) /\
    (forall u, occurrences u (votes img) <= occurrences v (votes img)).
Proof.
  intros Hwf Hdom.
  pose proof (dominantColor_votes img Hwf) as Hmax. rewrite Hdom in Hmax.
  destruct Hmax as (v0 & Hc0 & Hv0 & Hmax).
  unfold dominantColor in Hdom. fold (colorMapOf img) in Hdom.
  rewrite (colorMapOf_fold img Hwf) in Hdom.
  pose proof (votes_in_byte_range img) as Hrange.
  set (vs := votes img) in *. set (cm := fold_left addVote vs []) in *.
  destruct (tallied_fold vs [] [] tallied_nil) as (Hnd & Hnone & Hsome).
  simpl in Hnd, Hnone, Hsome. fold cm in Hnd, Hnone, Hsome.
  pose proof (sort_first_maximum count (JsMap.values cm)) as Hsort.
  destruct (sort _ (JsMap.values cm)) as [|first rest]; [discriminate|].
  injection Hdom as Hc.
  destruct Hsort as (vb & va & Hvalues & Hbefore & _).
  unfold JsMap.values in Hvalues.
  apply map_eq_app in Hvalues as (before & tail & Hcm & Hvb & Htail).
  apply map_eq_cons in Htail as ([k b0] & after & -> & Hb0 & _). simpl in Hb0. subst b0.
  assert (Hget : JsMap.get cm k = Some first).
  { apply (In_get _ _ _ Hnd). rewrite Hcm. apply in_elt. }
  destruct (Hsome _ _ Hget) as (Hcount & v & Hv & Hk & Hrgb).
  destruct (first_occurrence vs v Hv) as (pre & post & Hvs & Hpre).
  exists v, pre, post. split; [rewrite <- Hc; exact Hrgb|]. split; [exact Hvs|].
  assert (Hocc : count first = occurrences v vs).
  { rewrite Hcount, <- Hk. apply keyCount_occurrences; [apply Hrange, Hv | exact Hrange]. }
  split.
  - intros u Hu.
    assert (Huvs : In u vs) by (rewrite Hvs; apply in_or_app; left; exact Hu).
    assert (Hkpre : ~ In k (map keyOf pre)).
    { intros Hin. apply in_map_iff in Hin as (u' & Hku & Hu').
      assert (u' = v).
      { apply keyOf_inj; [apply Hrange; rewrite Hvs; apply in_or_app; tauto
                         | apply Hrange, Hv | congruence]. }
      subst u'. exact (Hpre Hu'). }
    destruct (firstSeen_prefix (map keyOf pre) (map keyOf post) k Hkpre) as (rest' & Hfs).
    assert (Hkeys : map fst before ++ k :: map fst after
                    = firstSeen (map keyOf pre) ++ k :: rest').
    { rewrite <- Hfs, <- Hk. change (keyOf v :: map keyOf post) with (map keyOf (v :: post)).
      rewrite <- map_app, <- Hvs, <- colorMap_keys. fold cm. rewrite Hcm, map_app.
      simpl. rewrite Hk. reflexivity. }
    assert (Hnd' : NoDup (map fst before ++ k :: map fst after)).
    { rewrite Hcm, map_app in Hnd. exact Hnd. }
    pose proof (NoDup_split_unique _ _ _ _ _ Hnd' Hkeys) as Hbk.
    assert (Hin : In (keyOf u) (map fst before)).
    { rewrite Hbk. apply firstSeen_elements, in_map, Hu. }
    apply in_map_iff in Hin as ([ku bu] & Hku & Hentry). simpl in Hku. subst ku.
    assert (Hbu : count bu < count first).
    { apply Hbefore. rewrite <- Hvb. apply in_map_iff. exists (keyOf u, bu). tauto. }
    assert (Hgetu : JsMap.get cm (keyOf u) = Some bu).
    { apply (In_get _ _ _ Hnd). rewrite Hcm. apply in_or_app. left. exact Hentry. }
    destruct (Hsome _ _ Hgetu) as (Hcu & _).
    rewrite (keyCount_occurrences u vs (Hrange u Huvs) Hrange) in Hcu. lia.
  - intros u. rewrite <- Hocc.
    assert (Hv0' : rgb first = rgbOf v0) by (rewrite Hc; exact Hc0).
    specialize (Hmax u).
    assert (v0 = v).
    { destruct v0 as [[x0 y0] z0], v as [[x y] z]. rewrite Hrgb in Hv0'.
      simpl in Hv0'. injection Hv0' as -> -> ->. reflexivity. }
    subst v0. lia.
Qed.

Lemma dominantColor_first_seen_wins_witness :
  isRGBorRGBA sample_image = true /\
  dominantColor sample_image = Some (rgbOf (96, 248, 8)) /\
  exists v pre post,
    rgbOf (96, 248, 8) = rgbOf v /\
    votes sample_image = pre ++ v :: post /\
    (forall u, In u pre -> occurrences u (votes sample_image) < occurrences v (votes sample_image)) /\
    (forall u, occurrences u (votes sample_image) <= occurrences v (votes sample_image)).
Proof.
  split; [reflexivity|]. split; [reflexivity|].
  exact (dominantColor_first_seen_wins sample_image _ eq_refl eq_refl).
Defined.

(** ** The alpha channel *)

Lemma dominantColor_of_pixels (img : RawImage) :
  isRGBorRGBA img = true ->
  dominantColor img
  = match sort (fun a b => count b - count a)
            (JsMap.values (fold_left voteZ (pixels img) [])) with
    | first :: _ => Some (rgb first)
    | [] => None
    end.
Proof. intros Hwf. unfold dominantColor. rewrite fold_votePixel_pixels by exact Hwf. reflexivity. Qed.

Lemma pixels_cons (s : nat) (ch : Channels) (chunk rest : list Byte.byte) :
  channel_count ch = s -> length chunk = s -> (0 < s)%nat ->
  pixels {| data := chunk ++ rest; channels := ch |}
  = pixelAt {| data := chunk ++ rest; channels := ch |} 0
    :: pixels {| data := rest; channels := ch |}.
Proof.
  intros Hs Hlen Hpos. unfold pixels. cbn [data channels]. rewrite Hs.
  rewrite length_app, Hlen.
  replace ((s + length rest) / s)%nat with (S (length rest / s)).
  2: { replace (s + length rest)%nat with (length rest + 1 * s)%nat by lia.
       rewrite Nat.div_add by lia. lia. }
  simpl. f_equal. rewrite <- seq_shift, map_map. apply map_ext. intros k.
  unfold pixelAt. cbn [data channels]. rewrite Hs. unfold byteAt.
  replace (S k * s)%nat with (length chunk + k * s)%nat by lia.
  rewrite <- !Nat.add_assoc, !lookup_app_r by lia.
  replace (length chunk + k * s - length chunk)%nat with (k * s)%nat by lia.
  replace (length chunk + (k * s + 1) - length chunk)%nat with (k * s + 1)%nat by lia.
  replace (length chunk + (k * s + 2) - length chunk)%nat with (k * s + 2)%nat by lia.
  reflexivity.
Qed.

Lemma dropAlpha_pixels (n : nat) :
  forall data,
    length data = (4 * n)%nat ->
    length (dropAlpha data) = (3 * n)%nat /\
    pixels {| data := dropAlpha data; channels := Ch3 |}
    = pixels {| data := data; channels := Ch4 |}.
Proof.
  induction n as [|n IH]; intros data Hlen.
  - destruct data; [|discriminate Hlen]. split; reflexivity.
  - destruct data as [|x1 [|x2 [|x3 [|x4 rest]]]]; simpl in Hlen; try lia.
    destruct (IH rest ltac:(lia)) as [Hl Hp]. split; [simpl; lia|].
    change (x1 :: x2 :: x3 :: x4 :: rest) with ([x1; x2; x3; x4] ++ rest).
    change (dropAlpha ([x1; x2; x3; x4] ++ rest)) with ([x1; x2; x3] ++ dropAlpha rest).
    rewrite (pixels_cons 3 Ch3) by (reflexivity || lia).
    rewrite (pixels_cons 4 Ch4) by (reflexivity || lia).
    rewrite Hp. reflexivity.
Qed.

(** X8. The detector never reads the alpha channel: an RGBA buffer and the
    same buffer without its alpha bytes have the same dominant colour. *)
Theorem dominantColor_ignores_alpha (bytes : list Byte.byte) :
  (length bytes mod 4 = 0)%nat ->
  dominantColor {| data := bytes; channels := Ch4 |}
  = dominantColor {| data := dropAlpha bytes; channels := Ch3 |}.
Proof.
  intros Hmod.
  assert (Hlen : length bytes = (4 * (length bytes / 4))%nat).
  { pose proof (Nat.div_mod_eq (length bytes) 4). lia. }
  destruct (dropAlpha_pixels _ bytes Hlen) as [Hl3 Hp].
  rewrite !dominantColor_of_pixels.
  - rewrite Hp. reflexivity.
  - unfold isRGBorRGBA. cbn [data channels channel_count]. rewrite Hl3.
    apply Nat.eqb_eq. rewrite Nat.mul_comm. apply Nat.Div0.mod_mul.
  - unfold isRGBorRGBA. cbn [data channels channel_count]. apply Nat.eqb_eq, Hmod.
Qed.

Lemma dominantColor_ignores_alpha_witness :
  dominantColor sample_image_rgba = Some (rgbOf (96, 248, 8)) /\
  dominantColor sample_image_rgba
  = dominantColor {| data := dropAlpha (data sample_image_rgba); channels := Ch3 |}.
Proof.
  split; [reflexivity|].
  exact (dominantColor_ignores_alpha (data sample_image_rgba) eq_refl).
Defined.

(** ** Where the input comes from *)




Lemma finally_cleanup_result (env : Env) {A : Type} (res : Result A)
    (tempInputPath : option string) (uploadedFile : option UploadedFile) (w : World) :
  fst (finally res (cleanupInputs env tempInputPath uploadedFile) w) = res.
Proof. apply finally_ok. apply (cleanupInputs_effects env tempInputPath uploadedFile w). Qed.



(** ** Failures of detection and of the passes *)





(** ** How much a request does *)

Section EventBudget.
Context {X : Type} (select : Event -> option X) (ws wu wl : nat).
Hypothesis select_spawned :
  forall c a, (length (omap select [Spawned c a]) <= ws)%nat.
Hypothesis select_unlinked :
  forall p ok, (length (omap select [Unlinked p ok]) <= wu)%nat.
Hypothesis select_logged :
  forall m r, (length (omap select [SettingsLogged m r]) <= wl)%nat.

Lemma emits_silent {A : Type} (m : M A) (n : nat) :
  (forall w, log (snd (m w)) = log w) -> Emits select n m.
Proof. intros H w. exists []. rewrite app_nil_r. split; [apply H | simpl; lia]. Qed.

Lemma emits_weaken {A : Type} (m : M A) (n n' : nat) :
  (n <= n')%nat -> Emits select n m -> Emits select n' m.
Proof. intros Hn Hm w. destruct (Hm w) as (evs & Hl & Hb). exists evs. split; [exact Hl | lia]. Qed.

Lemma emits_bind {A B : Type} (m : M A) (k : A -> M B) (n1 n2 : nat) :
  Emits select n1 m -> (forall a, Emits select n2 (k a)) ->
  Emits select (n1 + n2) (bind m k).
Proof.
  intros Hm Hk w. unfold bind. destruct (Hm w) as (e1 & Hl1 & Hb1).
  destruct (m w) as [[a|e] w1]; simpl in Hl1.
  - destruct (Hk a w1) as (e2 & Hl2 & Hb2). exists (e1 ++ e2).
    rewrite Hl2, Hl1, app_assoc, omap_app, length_app. split; [reflexivity | lia].
  - exists e1. split; [exact Hl1 | lia].
Qed.

Lemma emits_tryIgnore (m : M unit) (n : nat) :
  Emits select n m -> Emits select n (tryIgnore m).
Proof. intros Hm w. unfold tryIgnore. specialize (Hm w). destruct (m w). exact Hm. Qed.

Lemma emits_finally {A : Type} (res : Result A) (fin : M unit) (n : nat) :
  Emits select n fin -> Emits select n (finally res fin).
Proof.
  intros Hf w. unfold finally. specialize (Hf w). destruct (fin w) as [[[]|e] w1]; exact Hf.
Qed.

Lemma emits_spawnProcess (env : Env) (c : string) (a : list string) (writes : bool) :
  Emits select ws (spawnProcess env c a writes).
Proof.
  intros w. exists [Spawned c a].
  split; [apply (spawnProcess_effects env c a writes w) | apply select_spawned].
Qed.

Lemma emits_unlink (env : Env) (p : string) : Emits select wu (tryIgnore (unlink env p)).
Proof.
  intros w. destruct (unlink_effects env p w) as (_ & ok & Hl & _).
  exists [Unlinked p ok]. split; [exact Hl | apply select_unlinked].
Qed.

Lemma emits_runFfmpegCommand (env : Env) (args : list string) :
  Emits select ws (runFfmpegCommand env args).
Proof.
  intros w. exists [Spawned (ffmpegPath env) args].
  split; [apply (runFfmpegCommand_effects env args w) | apply select_spawned].
Qed.

Lemma emits_getVideoDuration (env : Env) (inputPath : string) :
  Emits select ws (getVideoDuration env inputPath).
Proof.
  unfold getVideoDuration. replace ws with (ws + 0)%nat by lia.
  apply emits_bind; [apply emits_spawnProcess|]. intros run.
  destruct (ending run) as [[[|c|c]|]|m]; apply emits_silent; reflexivity.
Qed.

Lemma emits_extractFrame (env : Env) (inputPath : string) (percentage : Z) :
  Emits select (ws + ws) (extractFrame env inputPath percentage).
Proof.
  unfold extractFrame. change (ws + ws)%nat with (0 + (ws + ws))%nat.
  apply emits_bind; [apply emits_silent; reflexivity|]. intros id.
  apply emits_bind; [apply emits_getVideoDuration|]. intros d.
  replace ws with (ws + 0)%nat at 1 by lia.
  apply emits_bind; [apply emits_runFfmpegCommand|]. intros _.
  apply emits_silent; reflexivity.
Qed.

Lemma emits_sampleFrames (env : Env) (inputPath : string) (ct : ColorType)
    (percentages : list Z) :
  forall framePaths colorCounts w,
    let out := sampleFrames env inputPath ct percentages framePaths colorCounts w in
    (exists evs,
       log (snd out) = log w ++ evs /\
       (length (omap select evs) <= length percentages * (ws + ws))%nat) /\
    (length (snd (fst out)) <= length framePaths + length percentages)%nat.
Proof.
  induction percentages as [|pct ps IH]; intros fps cc w; cbv zeta; simpl.
  - split; [exists []; rewrite app_nil_r; simpl; split; [reflexivity | lia] | lia].
  - destruct (emits_extractFrame env inputPath pct w) as (e1 & Hl1 & Hb1).
    destruct (extractFrame env inputPath pct w) as [[f|e] w1]; simpl in Hl1 |- *.
    2: { split; [exists e1; split; [exact Hl1 | lia] | lia]. }
    destruct (analyzeFrameColors_effects env f ct w1) as (Hl2 & _).
    destruct (analyzeFrameColors env f ct w1) as [[color|e] w2]; simpl in Hl2 |- *.
    2: { split; [exists e1; rewrite Hl2; split; [exact Hl1 | lia]|].
         rewrite length_app. simpl. lia. }
    match goal with
    | |- context [sampleFrames env inputPath ct ps ?fps' ?cc' w2] =>
        destruct (IH fps' cc' w2) as ((e3 & Hl3 & Hb3) & Hlen)
    end.
    split.
    + exists (e1 ++ e3). rewrite Hl3, Hl2, Hl1, app_assoc, omap_app, length_app.
      split; [reflexivity | lia].
    + rewrite length_app in Hlen. simpl in Hlen. lia.
Qed.

Lemma emits_cleanupFrames (env : Env) (framePaths : list string) :
  Emits select (length framePaths * wu) (cleanupFrames env framePaths).
Proof.
  induction framePaths as [|f fps IH]; simpl; [apply emits_silent; reflexivity|].
  apply emits_bind; [apply emits_unlink | intros _; exact IH].
Qed.

Lemma emits_findDominantChromaColor (env : Env) (inputPath : string) (ct : ColorType) :
  Emits select (3 * (ws + ws) + 3 * wu) (findDominantChromaColor env inputPath ct).
Proof.
  intros w. unfold findDominantChromaColor.
  destruct (emits_sampleFrames env inputPath ct [5; 25; 50] [] [] w)
    as ((e1 & Hl1 & Hb1) & Hlen).
  destruct (sampleFrames env inputPath ct [5; 25; 50] [] [] w) as [[sampled fps] w1].
  simpl in Hl1, Hb1, Hlen.
  match goal with
  | |- context [finally ?o (cleanupFrames env fps) w1] =>
      destruct (emits_finally o _ _ (emits_cleanupFrames env fps) w1) as (e2 & Hl2 & Hb2)
  end.
  exists (e1 ++ e2). rewrite Hl2, Hl1, app_assoc, omap_app, length_app.
  split; [reflexivity|]. nia.
Qed.

Lemma emits_detectColor (env : Env) (dto : ProcessVideoDto) (inputPath : string) :
  Emits select
    (match autoDetectColor dto with Some true => 3 * (ws + ws) + 3 * wu | _ => 0 end)
    (detectColor env dto inputPath).
Proof.
  unfold detectColor. destruct (autoDetectColor dto) as [[|]|];
    try (apply emits_silent; reflexivity).
  replace (3 * (ws + ws) + 3 * wu)%nat with (3 * (ws + ws) + 3 * wu + 0)%nat by lia.
  apply emits_bind; [apply emits_findDominantChromaColor|]. intros d.
  apply emits_silent; reflexivity.
Qed.

Lemma emits_processChromaKey (env : Env) (options : Options.t) :
  Emits select (wl + (ws + ws)) (processChromaKey env options).
Proof.
  unfold processChromaKey.
  change (wl + (ws + ws))%nat with (0 + (wl + (ws + ws)))%nat.
  apply emits_bind.
  { destruct (Options.sessionId options); apply emits_silent; reflexivity. }
  intros id. change (wl + (ws + ws))%nat with (0 + (wl + (ws + ws)))%nat.
  apply emits_bind.
  { apply emits_silent. intros w. unfold mkdir. destruct (mkdir_ok _ _ _); reflexivity. }
  intros _. apply emits_bind.
  { intros w. eexists [SettingsLogged _ _]. split; [reflexivity | apply select_logged]. }
  intros _. apply emits_bind; [apply emits_runFfmpegCommand|]. intros _.
  replace ws with (ws + 0)%nat at 1 by lia.
  apply emits_bind; [apply emits_runFfmpegCommand|]. intros _.
  apply emits_silent; reflexivity.
Qed.

Lemma emits_processInput (env : Env) (dto : ProcessVideoDto) (baseUrl : option string)
    (sessionId inputPath : string) :
  Emits select
    (match autoDetectColor dto with Some true => 3 * (ws + ws) + 3 * wu | _ => 0 end
     + (wl + (ws + ws)))
    (processInput env dto baseUrl sessionId inputPath).
Proof.
  unfold processInput. apply emits_bind; [apply emits_detectColor|]. intros d.
  replace (wl + (ws + ws))%nat with (wl + (ws + ws) + 0)%nat by lia.
  apply emits_bind; [apply emits_processChromaKey|]. intros res.
  apply emits_silent; reflexivity.
Qed.

Lemma emits_cleanupInputs (env : Env) (tempInputPath : option string)
    (uploadedFile : option UploadedFile) :
  tempInputPath = None \/ uploadedFile = None ->
  Emits select wu (cleanupInputs env tempInputPath uploadedFile).
Proof.
  intros [-> | ->]; unfold cleanupInputs; simpl.
  - change wu with (0 + wu)%nat. apply emits_bind; [apply emits_silent; reflexivity|].
    intros _. destruct (truthy_string (path <$> uploadedFile));
      [apply emits_unlink | apply emits_silent; reflexivity].
  - replace wu with (wu + 0)%nat by lia. apply emits_bind.
    + destruct (truthy_string tempInputPath);
        [apply emits_unlink | apply emits_silent; reflexivity].
    + intros _. apply emits_silent; reflexivity.
Qed.

Lemma emits_processVideo (env : Env) (dto : ProcessVideoDto)
    (uploadedFile : option UploadedFile) (baseUrl : option string) :
  Emits select
    (match autoDetectColor dto with Some true => 3 * (ws + ws) + 3 * wu | _ => 0 end
     + (wl + (ws + ws)) + wu)
    (processVideo env dto uploadedFile baseUrl).
Proof.
  intros w. unfold processVideo, bind, uuid. cbn [fst snd].
  set (sid := uuidv4 env (clock w)).
  pose proof (resolveInput_effects env dto uploadedFile sid (tick w)) as [Hl1 _].
  assert (Htmp : snd (fst (resolveInput env dto uploadedFile sid (tick w))) = None
                 \/ uploadedFile = None).
  { unfold resolveInput. destruct uploadedFile; [left; reflexivity | right; reflexivity]. }
  destruct (resolveInput env dto uploadedFile sid (tick w)) as [[input tmp] w1].
  simpl in Hl1, Htmp.
  assert (H2 : exists e2,
             log (snd (match input with
                       | Ok inputPath => processInput env dto baseUrl sid inputPath w1
                       | Throw e => (Throw e, w1)
                       end)) = log w1 ++ e2 /\
             (length (omap select e2)
              <= match autoDetectColor dto with
                 | Some true => 3 * (ws + ws) + 3 * wu
                 | _ => 0
                 end + (wl + (ws + ws)))%nat).
  { destruct input as [inputPath|e]; [apply emits_processInput|].
    exists []. rewrite app_nil_r. simpl. split; [reflexivity | lia]. }
  destruct H2 as (e2 & Hl2 & Hb2).
  destruct (match input with
            | Ok inputPath => processInput env dto baseUrl sid inputPath w1
            | Throw e => (Throw e, w1)
            end) as [outcome w2].
  simpl in Hl2.
  destruct (emits_finally outcome _ _ (emits_cleanupInputs env tmp uploadedFile Htmp) w2)
    as (e3 & Hl3 & Hb3).
  exists (e2 ++ e3). rewrite Hl3, Hl2, Hl1, omap_app, length_app.
  split; [now rewrite app_assoc | lia].
Qed.

End EventBudget.

Lemma eventsOf_emits {A X : Type} (select : Event -> option X) (n : nat) (m : M A)
    (w : World) :
  Emits select n m -> (length (omap select (eventsOf m w)) <= n)%nat.
Proof.
  intros H. destruct (H w) as (evs & Hl & Hb). unfold eventsOf.
  rewrite Hl, drop_app_length. exact Hb.
Qed.




(** ** What a request deletes *)

Section DeletionScope.
Context (env : Env) (Q : string -> Prop).
Hypothesis frames_in_scope : forall id, Q (framePathOf env id).

Lemma logs_silent {A : Type} (m : M A) :
  (forall w, log (snd (m w)) = log w) -> Logs (deletesOnly Q) m.
Proof. intros H w. exists []. rewrite app_nil_r. split; [apply H | constructor]. Qed.

Lemma logs_bind {A B : Type} (m : M A) (k : A -> M B) :
  Logs (deletesOnly Q) m -> (forall a, Logs (deletesOnly Q) (k a)) ->
  Logs (deletesOnly Q) (bind m k).
Proof.
  intros Hm Hk w. unfold bind. destruct (Hm w) as (e1 & Hl1 & Hb1).
  destruct (m w) as [[a|e] w1]; simpl in Hl1.
  - destruct (Hk a w1) as (e2 & Hl2 & Hb2). exists (e1 ++ e2).
    rewrite Hl2, Hl1, app_assoc. split; [reflexivity | apply Forall_app; tauto].
  - exists e1. split; [exact Hl1 | exact Hb1].
Qed.

Lemma logs_finally {A : Type} (res : Result A) (fin : M unit) :
  Logs (deletesOnly Q) fin -> Logs (deletesOnly Q) (finally res fin).
Proof.
  intros Hf w. unfold finally. specialize (Hf w). destruct (fin w) as [[[]|e] w1]; exact Hf.
Qed.

Lemma logs_spawnProcess (c : string) (a : list string) (writes : bool) :
  Logs (deletesOnly Q) (spawnProcess env c a writes).
Proof.
  intros w. exists [Spawned c a].
  split; [apply (spawnProcess_effects env c a writes w) | repeat constructor].
Qed.

Lemma logs_runFfmpegCommand (args : list string) :
  Logs (deletesOnly Q) (runFfmpegCommand env args).
Proof.
  intros w. exists [Spawned (ffmpegPath env) args].
  split; [apply (runFfmpegCommand_effects env args w) | repeat constructor].
Qed.

Lemma logs_unlink (p : string) : Q p -> Logs (deletesOnly Q) (tryIgnore (unlink env p)).
Proof.
  intros Hq w. destruct (unlink_effects env p w) as (_ & ok & Hl & _).
  exists [Unlinked p ok]. split; [exact Hl | repeat constructor; exact Hq].
Qed.

Lemma logs_getVideoDuration (inputPath : string) :
  Logs (deletesOnly Q) (getVideoDuration env inputPath).
Proof.
  unfold getVideoDuration. apply logs_bind; [apply logs_spawnProcess|]. intros run.
  destruct (ending run) as [[[|c|c]|]|m]; apply logs_silent; reflexivity.
Qed.

Lemma logs_extractFrame (inputPath : string) (percentage : Z) :
  Logs (deletesOnly Q) (extractFrame env inputPath percentage).
Proof.
  unfold extractFrame.
  apply logs_bind; [apply logs_silent; reflexivity|]. intros id.
  apply logs_bind; [apply logs_getVideoDuration|]. intros d.
  apply logs_bind; [apply logs_runFfmpegCommand|]. intros _.
  apply logs_silent; reflexivity.
Qed.

Lemma extractFrame_path (inputPath : string) (percentage : Z) (w : World) (f : string) :
  fst (extractFrame env inputPath percentage w) = Ok f -> exists id, f = framePathOf env id.
Proof.
  unfold extractFrame, bind, uuid, ret. cbn [fst snd].
  destruct (getVideoDuration env inputPath (tick w)) as [[d|e] w1]; [|discriminate].
  destruct (runFfmpegCommand env _ w1) as [[[]|e] w2]; [|discriminate].
  simpl. intros [= <-]. eexists. reflexivity.
Qed.

Lemma logs_sampleFrames (inputPath : string) (ct : ColorType) (percentages : list Z) :
  forall framePaths colorCounts w,
    Forall Q framePaths ->
    let out := sampleFrames env inputPath ct percentages framePaths colorCounts w in
    (exists evs, log (snd out) = log w ++ evs /\ Forall (deletesOnly Q) evs) /\
    Forall Q (snd (fst out)).
Proof.
  induction percentages as [|pct ps IH]; intros fps cc w Hfps; cbv zeta; simpl.
  - split; [exists []; rewrite app_nil_r; split; [reflexivity | constructor] | exact Hfps].
  - destruct (logs_extractFrame inputPath pct w) as (e1 & Hl1 & Hb1).
    pose proof (extractFrame_path inputPath pct w) as Hpath.
    destruct (extractFrame env inputPath pct w) as [[f|e] w1]; simpl in Hl1 |- *.
    2: { split; [exists e1; split; [exact Hl1 | exact Hb1] | exact Hfps]. }
    destruct (Hpath f eq_refl) as [id ->].
    assert (Hfps' : Forall Q (fps ++ [framePathOf env id])).
    { apply Forall_app. split; [exact Hfps | repeat constructor; apply frames_in_scope]. }
    destruct (analyzeFrameColors_effects env (framePathOf env id) ct w1) as (Hl2 & _).
    destruct (analyzeFrameColors env (framePathOf env id) ct w1) as [[color|e] w2];
      simpl in Hl2 |- *.
    2: { split; [exists e1; rewrite Hl2; split; [exact Hl1 | exact Hb1] | exact Hfps']. }
    match goal with
    | |- context [sampleFrames env inputPath ct ps ?fps' ?cc' w2] =>
        destruct (IH fps' cc' w2 Hfps') as ((e3 & Hl3 & Hb3) & Hq)
    end.
    split; [|exact Hq].
    exists (e1 ++ e3). rewrite Hl3, Hl2, Hl1, app_assoc.
    split; [reflexivity | apply Forall_app; tauto].
Qed.

Lemma logs_cleanupFrames (framePaths : list string) :
  Forall Q framePaths -> Logs (deletesOnly Q) (cleanupFrames env framePaths).
Proof.
  induction 1 as [|f fps Hf Hfps IH]; simpl; [apply logs_silent; reflexivity|].
  apply logs_bind; [apply logs_unlink; exact Hf | intros _; exact IH].
Qed.

Lemma logs_findDominantChromaColor (inputPath : string) (ct : ColorType) :
  Logs (deletesOnly Q) (findDominantChromaColor env inputPath ct).
Proof.
  intros w. unfold findDominantChromaColor.
  destruct (logs_sampleFrames inputPath ct [5; 25; 50] [] [] w ltac:(constructor))
    as ((e1 & Hl1 & Hb1) & Hq).
  destruct (sampleFrames env inputPath ct [5; 25; 50] [] [] w) as [[sampled fps] w1].
  simpl in Hl1, Hq.
  match goal with
  | |- context [finally ?o (cleanupFrames env fps) w1] =>
      destruct (logs_finally o _ (logs_cleanupFrames fps Hq) w1) as (e2 & Hl2 & Hb2)
  end.
  exists (e1 ++ e2). rewrite Hl2, Hl1, app_assoc.
  split; [reflexivity | apply Forall_app; tauto].
Qed.

Lemma logs_processChromaKey (options : Options.t) :
  Logs (deletesOnly Q) (processChromaKey env options).
Proof.
  unfold processChromaKey.
  apply logs_bind.
  { destruct (Options.sessionId options); apply logs_silent; reflexivity. }
  intros id. apply logs_bind.
  { apply logs_silent. intros w. unfold mkdir. destruct (mkdir_ok _ _ _); reflexivity. }
  intros _. apply logs_bind.
  { intros w. eexists [SettingsLogged _ _]. split; [reflexivity | repeat constructor]. }
  intros _. apply logs_bind; [apply logs_runFfmpegCommand|]. intros _.
  apply logs_bind; [apply logs_runFfmpegCommand|]. intros _.
  apply logs_silent; reflexivity.
Qed.

Lemma logs_processInput (dto : ProcessVideoDto) (baseUrl : option string)
    (sessionId inputPath : string) :
  Logs (deletesOnly Q) (processInput env dto baseUrl sessionId inputPath).
Proof.
  unfold processInput. apply logs_bind.
  { unfold detectColor. destruct (autoDetectColor dto) as [[|]|];
      try (apply logs_silent; reflexivity).
    apply logs_bind; [apply logs_findDominantChromaColor|]. intros d.
    apply logs_silent; reflexivity. }
  intros d. apply logs_bind; [apply logs_processChromaKey|]. intros res.
  apply logs_silent; reflexivity.
Qed.

Lemma logs_cleanupInputs (tempInputPath : option string)
    (uploadedFile : option UploadedFile) :
  (forall p, tempInputPath = Some p -> Q p) ->
  (forall p, path <$> uploadedFile = Some p -> Q p) ->
  Logs (deletesOnly Q) (cleanupInputs env tempInputPath uploadedFile).
Proof.
  intros Ht Hu. unfold cleanupInputs. apply logs_bind.
  - destruct tempInputPath as [p|]; simpl; [|apply logs_silent; reflexivity].
    destruct (Str.truthy p); [apply logs_unlink, Ht; reflexivity
                             | apply logs_silent; reflexivity].
  - intros _. destruct (path <$> uploadedFile) as [p|]; simpl;
      [|apply logs_silent; reflexivity].
    destruct (Str.truthy p); [apply logs_unlink, Hu; reflexivity
                             | apply logs_silent; reflexivity].
Qed.

End DeletionScope.

Lemma deletesOnly_unlinked (Q : string -> Prop) (evs : list Event) (p : string) :
  Forall (deletesOnly Q) evs -> In p (omap unlinkedOf evs) -> Q p.
Proof.
  induction 1 as [|ev evs Hev Hevs IH]; simpl; [tauto|].
  destruct ev as [c a|q ok|m r]; simpl; try exact IH.
  intros [<- | Hin]; [exact Hev | exact (IH Hin)].
Qed.



(** ** Detection and the colour type *)

Lemma sampleFrames_colorType (env : Env) (inputPath : string) (ct ct' : ColorType)
    (percentages : list Z) :
  forall framePaths colorCounts w,
    sampleFrames env inputPath ct percentages framePaths colorCounts w
    = sampleFrames env inputPath ct' percentages framePaths colorCounts w.
Proof.
  induction percentages as [|pct ps IH]; intros fps cc w; simpl; [reflexivity|].
  destruct (extractFrame env inputPath pct w) as [[f|e] w1]; [|reflexivity].
  change (analyzeFrameColors env f ct w1) with (analyzeFrameColors env f ct' w1).
  destruct (analyzeFrameColors env f ct' w1) as [[color|e] w2]; [|reflexivity].
  apply IH.
Qed.

(** X17. Colour detection does not depend on the colour type of the
    request: it samples the same frames, votes the same way and returns
    the same colour for green and for blue. *)
Theorem detection_ignores_colorType (env : Env) (inputPath : string)
    (ct ct' : ColorType) (w : World) :
  findDominantChromaColor env inputPath ct w = findDominantChromaColor env inputPath ct' w.
Proof.
  unfold findDominantChromaColor. rewrite (sampleFrames_colorType env inputPath ct ct').
  reflexivity.
Qed.

(** ** The links of the response *)

Lemma basename_join (dir name : string) :
  has_slash name = false -> basename (join dir name) = name.
Proof.
  intros Hn. unfold join.
  change ("/" +:+ name) with (String "/" name).
  induction dir as [|c dir IH].
  - change ("" +:+ String "/" name) with (String "/" name). simpl. rewrite Hn. reflexivity.
  - change (String c dir +:+ String "/" name) with (String c (dir +:+ String "/" name)).
    assert (Hs : has_slash (dir +:+ String "/" name) = true).
    { clear IH. induction dir as [|c' dir IH'].
      - reflexivity.
      - change (String c' dir +:+ String "/" name) with (String c' (dir +:+ String "/" name)).
        simpl. rewrite IH'. apply orb_true_r. }
    simpl. rewrite Hs. exact IH.
Qed.

Lemma has_slash_app (s1 s2 : string) :
  has_slash (s1 +:+ s2) = has_slash s1 || has_slash s2.
Proof.
  induction s1 as [|c s1 IH].
  - reflexivity.
  - change (String c s1 +:+ s2) with (String c (s1 +:+ s2)). simpl.
    rewrite IH. apply orb_assoc.
Qed.

Lemma processChromaKey_paths (env : Env) (options : Options.t) (id : string) (w : World) :
  Options.sessionId options = Some id ->
  forall res, fst (processChromaKey env options w) = Ok res ->
  res = {| maskPath := join (Options.outputDir options) (id +:+ "_mask.webm");
           resultPath := join (Options.outputDir options) (id +:+ "_result.webm") |}.
Proof.
  intros Hid res. unfold processChromaKey. rewrite Hid. unfold bind, ret. cbn [fst snd].
  destruct (mkdir env (Options.outputDir options) w) as [[[]|e] w1]; [|discriminate].
  cbn [fst snd].
  repeat match goal with
         | |- context [runFfmpegCommand env ?a ?w'] =>
             destruct (runFfmpegCommand env a w') as [[[]|?] ?]; [|discriminate]
         end.
  intros [= <-]. reflexivity.
Qed.


